(** * AginnoOpen: the research agent loop and its search gateway

    A shallow embedding of [src/utils/search.ts], [src/utils/llm.ts],
    [chatStore.ts] and the [processQuery] of [src/app/api/ask/route.ts]
    that calls them, and the properties of the ReAct-style loop
    established on it.

    Strings are Rocq [string]s read as the UTF-8 encoding of the JavaScript
    string.  The two external services (the chat-completion endpoint and
    the Serper search endpoint) are oracles of an environment [Env]; every
    interaction with them is recorded, in order, in the [events] of the
    [World] that the code threads through its calls.

    The UUIDs and the clock that the chat store draws from are oracles of
    a [ChatStore.Sys].  [constructPrompt] of [prompt.ts] is embedded as
    well. *)

From Stdlib Require Import String Ascii List Arith Lia Bool DecimalString.
From Stdlib Require Import NArith Permutation Sorted.
Import ListNotations.

Local Open Scope string_scope.
Local Open Scope list_scope.
Local Open Scope nat_scope.

(* ===================================================================== *)
(** ** JavaScript strings *)

Module Js.

Definition chr (n : nat) : string := String (ascii_of_nat n) EmptyString.

(** The characters that cannot be written inside a literal here. *)
Definition dq : string := chr 34.
Definition sq : string := chr 39.
Definition nl : string := chr 10.

(** A template literal: its pieces, concatenated. *)
Definition tpl (pieces : list string) : string := String.concat EmptyString pieces.

(** [Array.prototype.join]. *)
Definition join (sep : string) (l : list string) : string := String.concat sep l.

(** A number interpolated in a template literal (a length or an index). *)
Definition ofNat (n : nat) : string := NilZero.string_of_uint (Nat.to_uint n).

(** [hay.includes(needle)]. *)
Fixpoint includes (hay needle : string) : bool :=
  if String.prefix needle hay then true
  else match hay with
       | EmptyString => false
       | String _ rest => includes rest needle
       end.

Fixpoint rev_onto (s acc : string) : string :=
  match s with
  | EmptyString => acc
  | String c s' => rev_onto s' (String c acc)
  end.

Definition rev (s : string) : string := rev_onto s EmptyString.

(** The ECMAScript LineTerminator code points: LF, CR, U+2028, U+2029.
    The regular expression [.] matches everything else. *)
Definition lineTerminators : list string :=
  [ chr 10; chr 13;
    String (ascii_of_nat 226) (String (ascii_of_nat 128) (chr 168));
    String (ascii_of_nat 226) (String (ascii_of_nat 128) (chr 169)) ].

Definition hasLineTerminator (s : string) : bool :=
  existsb (includes s) lineTerminators.

Definition isQuote (c : ascii) : bool :=
  Ascii.eqb c (ascii_of_nat 34) || Ascii.eqb c (ascii_of_nat 39).

(** The replace call of search.ts line 42 and llm.ts line 229, whose
    pattern is: start of input, a double or single quote, a captured
    greedy run of [.], a double or single quote, end of input; and whose
    replacement is the captured run.  When the whole string is a quote
    character, a run without line terminators, and a quote character, it
    is replaced by the run; otherwise the pattern does not match and the
    string is returned as it is. *)
Definition stripQuotes (s : string) : string :=
  match s with
  | String c0 rest =>
      match rev rest with
      | String c1 revMiddle =>
          if isQuote c0 && isQuote c1 && negb (hasLineTerminator (rev revMiddle))
          then rev revMiddle
          else s
      | EmptyString => s
      end
  | EmptyString => s
  end.

(** The code points that [String.prototype.trim] removes: WhiteSpace
    (TAB, VT, FF, SP, NBSP, ZWNBSP and the Unicode space separators) and
    LineTerminator, each as its UTF-8 bytes. *)
Definition b3 (a b c : nat) : string :=
  String (ascii_of_nat a) (String (ascii_of_nat b) (chr c)).

Definition whiteSpace : list string :=
  [ chr 9; chr 10; chr 11; chr 12; chr 13; chr 32;
    String (ascii_of_nat 194) (chr 160);
    b3 225 154 128;
    b3 226 128 128; b3 226 128 129; b3 226 128 130; b3 226 128 131;
    b3 226 128 132; b3 226 128 133; b3 226 128 134; b3 226 128 135;
    b3 226 128 136; b3 226 128 137; b3 226 128 138;
    b3 226 128 168; b3 226 128 169; b3 226 128 175;
    b3 226 129 159; b3 227 128 128; b3 239 187 191 ].

Definition isWs (l : list string) (s : string) : bool :=
  existsb (String.eqb s) l.

(** Removes leading items of [ws] (each one, two or three bytes long). *)
Fixpoint dropLeading (ws : list string) (s : string) : string :=
  match s with
  | String a s1 =>
      if isWs ws (String a EmptyString) then dropLeading ws s1
      else match s1 with
           | String b s2 =>
               if isWs ws (String a (String b EmptyString)) then dropLeading ws s2
               else match s2 with
                    | String c s3 =>
                        if isWs ws (String a (String b (String c EmptyString)))
                        then dropLeading ws s3
                        else s
                    | EmptyString => s
                    end
           | EmptyString => s
           end
  | EmptyString => s
  end.

Definition trim (s : string) : string :=
  rev (dropLeading (map rev whiteSpace) (rev (dropLeading whiteSpace s))).

(** [!s] for a string that may be [undefined]: absent or empty. *)
Definition truthy (s : option string) : option string :=
  match s with
  | Some EmptyString => None
  | other => other
  end.

(** [s || dflt]. *)
Definition orElse (s : option string) (dflt : string) : string :=
  match truthy s with
  | Some v => v
  | None => dflt
  end.

(** [l.slice(-n)]. *)
Definition sliceLast {A : Type} (n : nat) (l : list A) : list A :=
  skipn (length l - n) l.

(** [l.every(p)]. *)
Definition every {A : Type} (p : A -> bool) (l : list A) : bool := forallb p l.

(** [l.map((x, i) => f(i, x))], the index counted from [i]. *)
Fixpoint mapiFrom {A B : Type} (i : nat) (f : nat -> A -> B) (l : list A) : list B :=
  match l with
  | [] => []
  | x :: l' => f i x :: mapiFrom (S i) f l'
  end.

Definition mapi {A B : Type} (f : nat -> A -> B) (l : list A) : list B :=
  mapiFrom 0 f l.

(** [l[i].field = v] on an array cell: the element at [i] is replaced by
    [f] of it; nothing changes when [i] is out of range (the code never
    does that: [i] is the index a push returned). *)
Fixpoint modifyAt {A : Type} (i : nat) (f : A -> A) (l : list A) : list A :=
  match l, i with
  | [], _ => []
  | x :: l', 0 => f x :: l'
  | x :: l', S i' => x :: modifyAt i' f l'
  end.

End Js.

(* ===================================================================== *)
(** ** Results, exceptions and the world *)

Record JsError : Type := mkError { name : string; message : string }.

Inductive Result (A : Type) : Type :=
| Ok (a : A)
| Throw (e : JsError).
Arguments Ok {A} a.
Arguments Throw {A} e.

(** [src/utils/search.ts], interface SearchResult. *)
Record SearchResult : Type := mkSearchResult {
  title : string;
  link : string;
  snippet : string;
  position : nat
}.

(** [src/utils/search.ts], interface SearchResponse: only [organic] is read,
    and it may be missing. *)
Record SearchResponse : Type := mkSearchResponse {
  organic : option (list SearchResult)
}.

(** What [fetch] resolves to: [ok], [status], and what [text()] and
    [json()] give when they are awaited.  A body that parses to something
    whose [organic] cannot be read (a JSON null) is a [json] that throws:
    both raise inside the same [try]. *)
Record Response : Type := mkResponse {
  ok : bool;
  status : nat;
  text : Result string;
  json : Result SearchResponse
}.

(** [src/utils/types.ts], interface AgentTraceStep. *)
Record AgentTraceStep : Type := mkStep {
  thought : string;
  action : string;
  observation : string;
  reflection : option string
}.

(** [src/utils/types.ts], interface AgentResponse. *)
Record AgentResponse : Type := mkAgentResponse {
  traceSteps : list AgentTraceStep;
  finalOutput : string
}.

(** A chat completion either rejects, or resolves to a response whose
    [choices[0]?.message?.content] is a string or is absent. *)
Inductive Completion : Type :=
| Replied (content : option string)
| Failed (e : JsError).

Inductive Event : Type :=
| EvChat (system user : string) (out : Completion)
| EvFetch (apiKey q : string) (out : Result Response)
| EvSleep (ms : nat).

(** The process environment and the two remote services.  A service is
    asked with the number of calls made to it before, so that it may answer
    the same request differently each time.  A fetch that is aborted by the
    20 second timer rejects with an error named AbortError. *)
Record Env : Type := mkEnv {
  OPENAI_API_KEY : option string;
  SERPER_API_KEY : option string;
  chatCompletions : nat -> string -> string -> Completion;
  serper : nat -> string -> string -> Result Response
}.

(** The state threaded through the code: the calls made so far, the
    chronological record of them, and the two mutable objects of a running
    invocation: its [traceSteps] array, which the loop mutates in place, and
    the loop's [consecutiveFailures] variable, which is assigned inside a
    [try] block and read in its [catch]. *)
Record World : Type := mkWorld {
  chatCalls : nat;
  fetchCalls : nat;
  events : list Event;
  trace : list AgentTraceStep;
  consecutiveFailures : nat
}.

Definition World0 : World := mkWorld 0 0 [] [] 0.

(** Computations: a state monad over [World] with exceptions.  The state
    reached when an exception is thrown is kept, as in JavaScript. *)
Definition M (A : Type) : Type := World -> Result A * World.

Definition ret {A : Type} (a : A) : M A := fun w => (Ok a, w).

Definition throw {A : Type} (e : JsError) : M A := fun w => (Throw e, w).

Definition bind {A B : Type} (m : M A) (k : A -> M B) : M B :=
  fun w =>
    match m w with
    | (Ok a, w') => k a w'
    | (Throw e, w') => (Throw e, w')
    end.

Definition tryCatch {A : Type} (body : M A) (handler : JsError -> M A) : M A :=
  fun w =>
    match body w with
    | (Ok a, w') => (Ok a, w')
    | (Throw e, w') => handler e w'
    end.

(** Awaiting a promise whose outcome is already known. *)
Definition await {A : Type} (r : Result A) : M A := fun w => (r, w).

Notation "x <- m ;; k" := (bind m (fun x => k))
  (at level 61, m at next level, right associativity).
Notation "m ;;; k" := (bind m (fun _ => k))
  (at level 61, right associativity).

(** How an iteration of a [for] loop ends. *)
Inductive Flow (A : Type) : Type :=
| Return (a : A)
| Continue.
Arguments Return {A} a.
Arguments Continue {A}.

(* ===================================================================== *)
(** ** src/utils/search.ts *)

Section Search.

Variable env : Env.

(** [await fetch("https://google.serper.dev/search", ...)]. *)
Definition fetch (apiKey q : string) : M Response :=
  fun w =>
    let out := serper env (fetchCalls w) apiKey q in
    (out, mkWorld (chatCalls w) (S (fetchCalls w))
                  (events w ++ [EvFetch apiKey q out]) (trace w)
                  (consecutiveFailures w)).

(** [await new Promise(r => setTimeout(r, ms))]. *)
Definition sleep (ms : nat) : M unit :=
  fun w =>
    (Ok tt, mkWorld (chatCalls w) (fetchCalls w) (events w ++ [EvSleep ms]) (trace w)
                    (consecutiveFailures w)).

Definition generateMockResults (query : string) : list SearchResult :=
  [ mkSearchResult
      (Js.tpl ["Information about "; query; " - Resource 1"])
      "https://example.com/resource1"
      (Js.tpl ["This is a comprehensive resource about "; query;
               " with detailed information and analysis."])
      1;
    mkSearchResult
      (Js.tpl [query; " - Wikipedia"])
      "https://en.wikipedia.org/wiki/example"
      (Js.tpl [query; " refers to a topic of interest with various aspects and considerations worth exploring."])
      2;
    mkSearchResult
      (Js.tpl ["Latest research on "; query])
      "https://example.org/research"
      (Js.tpl ["Recent studies and analyses regarding "; query;
               " have shown interesting patterns and insights."])
      3;
    mkSearchResult
      (Js.tpl [query; ": A comprehensive guide"])
      "https://example.net/guide"
      (Js.tpl ["Our guide provides a thorough examination of "; query;
               " from multiple perspectives."])
      4;
    mkSearchResult
      (Js.tpl ["Expert opinions on "; query])
      "https://example.com/expert-analysis"
      (Js.tpl ["Leading experts have shared their thoughts and analyses on "; query;
               " and related topics."])
      5 ].

(** The body of the retry loop, lines 46-117: one attempt. *)
Definition searchAttempt (apiKey cleanedQuery : string) (attempt : nat)
  : M (Flow (list SearchResult)) :=
  tryCatch
    (response <- fetch apiKey cleanedQuery ;;
     if negb (ok response) then
       (_errorText <- await (text response) ;;
        if attempt =? 3 then ret (Return (generateMockResults cleanedQuery))
        else (sleep (attempt * 1000) ;;; ret Continue))
     else
       (data <- await (json response) ;;
        match organic data with
        | None | Some [] =>
            if attempt =? 3 then ret (Return (generateMockResults cleanedQuery))
            else ret Continue
        | Some results => ret (Return results)
        end))
    (fun _error =>
       if attempt =? 3 then ret (Return (generateMockResults cleanedQuery))
       else (sleep (attempt * 1500) ;;; ret Continue)).

(** [for (let attempt = ...; attempt <= 3; attempt++)], with [remaining]
    iterations left; [None] when the loop runs to its end. *)
Fixpoint searchAttempts (apiKey cleanedQuery : string) (remaining attempt : nat)
  : M (option (list SearchResult)) :=
  match remaining with
  | 0 => ret None
  | S remaining' =>
      flow <- searchAttempt apiKey cleanedQuery attempt ;;
      match flow with
      | Return results => ret (Some results)
      | Continue => searchAttempts apiKey cleanedQuery remaining' (S attempt)
      end
  end.

Definition performSearch (query : string) : M (list SearchResult) :=
  match Js.truthy (SERPER_API_KEY env) with
  | None => ret (generateMockResults query)
  | Some apiKey =>
      let cleanedQuery := Js.stripQuotes query in
      found <- searchAttempts apiKey cleanedQuery 3 1 ;;
      match found with
      | Some results => ret results
      | None => ret (generateMockResults cleanedQuery)
      end
  end.

End Search.

(* ===================================================================== *)
(** ** src/utils/llm.ts *)

(** The client returned by [initOpenAI]. *)
Record OpenAI : Type := mkOpenAI { apiKey : string }.

(** How an iteration of the research loop ends. *)
Inductive Round : Type :=
| Break
| Next.

Module Prompt.

Import Js.

Definition planningSystem : string :=
  "You are a helpful research agent that creates detailed plans for research questions.".

Definition refinementSystem : string :=
  "You are a helpful research agent that generates refined search queries. You always output just the plain search query without any quotation marks or other decorations.".

Definition analysisSystem : string :=
  "You are a helpful research agent that analyzes search results for relevance and information value.".

Definition finalSystem : string :=
  "You are a helpful research assistant that generates comprehensive, well-structured answers based on research insights.".

(** The rendering of one trace step, shared by lines 191-193 and 318-320. *)
Definition step (i : nat) (s : AgentTraceStep) : string :=
  tpl [ "Step "; ofNat (i + 1); ":"; nl;
        "Thought: "; thought s; nl;
        "Action: "; action s; nl;
        "Observation: "; observation s; nl;
        "Reflection: "; orElse (reflection s) "N/A" ].

(** The rendering of one search result, lines 251-253. *)
Definition result (i : nat) (r : SearchResult) : string :=
  tpl [ "Result "; ofNat (i + 1); ":"; nl;
        "Title: "; title r; nl;
        "URL: "; link r; nl;
        "Snippet: "; snippet r ].

Definition planning (query : string) (searchResults : list SearchResult)
           (previousContext : string) : string :=
  let contextSection :=
    match truthy (Some previousContext) with
    | Some _ =>
        tpl [ nl; "Previous conversation context:"; nl; previousContext; nl; nl;
              "This appears to be a follow-up question. Consider the previous context when planning your research." ]
    | None => EmptyString
    end in
  tpl [ nl;
        "You are a research agent tasked with answering: "; dq; query; dq; nl;
        nl;
        "Below are initial search results:"; nl;
        join nl (mapi (fun i r => tpl [ofNat (i + 1); ". "; title r; " - "; link r])
                      searchResults); nl;
        nl;
        "Create a plan for how you'll approach this research question. What are the key aspects to investigate?";
        contextSection; nl ].

Definition refinement (originalQuery : string) (traceSteps : list AgentTraceStep) : string :=
  let traceContext := join (nl ++ nl) (mapi step traceSteps) in
  tpl [ nl;
        "Original query: "; dq; originalQuery; dq; nl;
        nl;
        "Research progress so far:"; nl;
        traceContext; nl;
        nl;
        "Based on the research so far, generate a refined search query that will help gather more specific "; nl;
        "information. The new query should be more targeted and help fill gaps in the current research."; nl;
        nl;
        "IMPORTANT: Output only the plain search query text. Do not include any quotation marks, brackets,"; nl;
        "or other special characters around your query. Just provide the raw search terms."; nl;
        nl;
        "For example:"; nl;
        "Good: Atlanta best public high schools 2023 rankings"; nl;
        "Bad: "; dq; "Atlanta best public high schools 2023 rankings"; dq; nl ].

Definition analysis (query : string) (searchResults : list SearchResult)
           (hasMockResults : bool) : string :=
  let resultsContext := join (nl ++ nl) (mapi result searchResults) in
  let mockResultsWarning :=
    if hasMockResults then
      tpl [ "NOTE: The search returned no actual results from the web. The results below are generated placeholders. "; nl;
            "    You should continue searching with different terms or consider that the information may not be readily available online." ]
    else EmptyString in
  tpl [ nl;
        "Search query: "; dq; query; dq; nl;
        nl;
        mockResultsWarning; nl;
        nl;
        "Search results:"; nl;
        resultsContext; nl;
        nl;
        "Analyze these search results. How relevant are they to our research question? "; nl;
        "What new information do they provide? Do we have sufficient information now, "; nl;
        "or should we search for something else?"; nl ].

Definition final (originalQuery traceContext previousContext : string) : string :=
  let contextSection :=
    match truthy (Some previousContext) with
    | Some _ =>
        tpl [ nl; nl; "Previous conversation context:"; nl; previousContext; nl; nl;
              "This appears to be a follow-up question. Ensure your response builds on the previous conversation." ]
    | None => EmptyString
    end in
  tpl [ nl;
        "Original research question: "; dq; originalQuery; dq; nl;
        nl;
        "Key research insights:"; nl;
        traceContext; contextSection; nl;
        nl;
        "Based on these research insights, generate a comprehensive answer to the original question."; nl;
        "Your answer should:"; nl;
        "1. Include a clear introduction"; nl;
        "2. Present key findings with bullet points where appropriate"; nl;
        "3. Organize information in numbered sections when helpful"; nl;
        "4. Include relevant details but be concise"; nl;
        "5. End with a brief conclusion noting any limitations of the research"; nl;
        nl;
        "Respond directly to the question without disclaimers about the research process."; nl ].

End Prompt.

(** *** [src/utils/prompt.ts], constructPrompt

    The source of this module follows [search.ts] in the same file; the
    default values of the last two parameters are an empty array and an
    empty string. *)
Definition constructPrompt (query : string) (searchResults : list SearchResult)
           (traceSteps : list AgentTraceStep) (previousContext : string) : string :=
  let resultsContext :=
    Js.join (Js.nl ++ Js.nl) (Js.mapi Prompt.result searchResults) in
  let traceContext :=
    if 0 <? length traceSteps
    then Js.join (Js.nl ++ Js.nl) (Js.mapi Prompt.step traceSteps)
    else EmptyString in
  let contextSection :=
    match Js.truthy (Some previousContext) with
    | Some _ =>
        Js.tpl [ Js.nl; Js.nl; "Previous conversation context:"; Js.nl;
                 previousContext; Js.nl; Js.nl;
                 "This appears to be a follow-up question. Ensure your response builds on the previous conversation." ]
    | None => EmptyString
    end in
  Js.tpl [ Js.nl;
           "Research question: "; Js.dq; query; Js.dq; Js.nl;
           Js.nl;
           (if 0 <? length searchResults
            then Js.tpl ["Search results:"; Js.nl; resultsContext; Js.nl; Js.nl]
            else EmptyString); Js.nl;
           (if 0 <? length traceSteps
            then Js.tpl ["Research progress:"; Js.nl; traceContext; Js.nl; Js.nl]
            else EmptyString); Js.nl;
           contextSection; Js.nl;
           Js.nl;
           "Based on the information above, provide a comprehensive answer to the research question.";
           Js.nl ].

Section Agent.

Variable env : Env.

(** [await openai.chat.completions.create(...)] with a system and a user
    message, then [response.choices[0]?.message?.content]. *)
Definition createChatCompletion (openai : OpenAI) (system user : string)
  : M (option string) :=
  fun w =>
    let out := chatCompletions env (chatCalls w) system user in
    (match out with
     | Replied content => Ok content
     | Failed e => Throw e
     end,
     mkWorld (S (chatCalls w)) (fetchCalls w)
             (events w ++ [EvChat system user out]) (trace w)
             (consecutiveFailures w)).

(** *** The invocation's mutable objects *)

(** [const traceSteps = []]. *)
Definition newTraceSteps : M unit :=
  fun w => (Ok tt, mkWorld (chatCalls w) (fetchCalls w) (events w) []
                           (consecutiveFailures w)).

(** Reading the array as it is now. *)
Definition getTraceSteps : M (list AgentTraceStep) :=
  fun w => (Ok (trace w), w).

(** [traceSteps.push(step)]; the result is the place of the pushed object,
    through which the code goes on mutating it. *)
Definition push (step : AgentTraceStep) : M nat :=
  fun w => (Ok (length (trace w)),
            mkWorld (chatCalls w) (fetchCalls w) (events w) (trace w ++ [step])
                    (consecutiveFailures w)).

(** [step.observation = f(step.observation)] on the object at [ref]. *)
Definition updateObservation (ref : nat) (f : string -> string) : M unit :=
  fun w => (Ok tt,
            mkWorld (chatCalls w) (fetchCalls w) (events w)
                    (Js.modifyAt ref
                       (fun s => mkStep (thought s) (action s) (f (observation s))
                                        (reflection s))
                       (trace w))
                    (consecutiveFailures w)).

Definition setObservation (ref : nat) (v : string) : M unit :=
  updateObservation ref (fun _ => v).

Definition appendObservation (ref : nat) (v : string) : M unit :=
  updateObservation ref (fun old => old ++ v)%string.

Definition setFailures (n : nat) : M unit :=
  fun w => (Ok tt, mkWorld (chatCalls w) (fetchCalls w) (events w) (trace w) n).

Definition getFailures : M nat :=
  fun w => (Ok (consecutiveFailures w), w).

(** [consecutiveFailures++]. *)
Definition incrFailures : M unit :=
  n <- getFailures ;; setFailures (S n).

(** *** Lines 8-18 *)

Definition initOpenAI : M OpenAI :=
  match Js.truthy (OPENAI_API_KEY env) with
  | None =>
      throw (mkError "Error" "OPENAI_API_KEY is not defined in environment variables")
  | Some key => ret (mkOpenAI key)
  end.

(** *** Lines 62-104 *)

(** The step returned at lines 96-103, from the content of the reply. *)
Definition planningStepOf (query : string) (content : option string) : AgentTraceStep :=
  let plan := Js.orElse content "No plan generated." in
  mkStep "I need to plan how to approach this research question."
         (Js.tpl ["Initial planning for query: "; Js.dq; query; Js.dq])
         "Received initial search results and created a research plan."
         (Some plan).

Definition generatePlanningStep (openai : OpenAI) (query : string)
           (searchResults : list SearchResult) (previousContext : string)
  : M AgentTraceStep :=
  content <- createChatCompletion openai Prompt.planningSystem
               (Prompt.planning query searchResults previousContext) ;;
  ret (planningStepOf query content).

(** *** Lines 186-232 *)

(** Lines 228-231, from the content of the reply. *)
Definition refinedQueryOf (originalQuery : string) (content : option string) : string :=
  let refinedQuery := Js.orElse (option_map Js.trim content) originalQuery in
  Js.stripQuotes refinedQuery.

Definition generateRefinedQuery (openai : OpenAI) (originalQuery : string)
           (traceSteps : list AgentTraceStep) : M string :=
  content <- createChatCompletion openai Prompt.refinementSystem
               (Prompt.refinement originalQuery traceSteps) ;;
  ret (refinedQueryOf originalQuery content).

(** The test of lines 138-143 and 244-249 on one result. *)
Definition isPlaceholder (result : SearchResult) : bool :=
  Js.includes (link result) "example.com"
  || Js.includes (link result) "example.org"
  || Js.includes (link result) "example.net"
  || Js.includes (link result) "wikipedia.org/wiki/example".

(** *** Lines 237-299 *)

(** The step returned at lines 287-298, from the content of the reply. *)
Definition analysisStepOf (query : string) (searchResults : list SearchResult)
           (content : option string) : AgentTraceStep :=
  let hasMockResults := Js.every isPlaceholder searchResults in
  let analysis := Js.orElse content "No analysis generated." in
  let observation :=
    if hasMockResults then
      Js.tpl ["Analyzed "; Js.ofNat (length searchResults);
              " placeholder results (no actual search results were found)."]
    else
      Js.tpl ["Analyzed "; Js.ofNat (length searchResults);
              " search results for relevance."] in
  mkStep "I need to evaluate if these search results are helpful for my research."
         (Js.tpl ["Analyzing results from query: "; Js.dq; query; Js.dq])
         observation
         (Some analysis).

Definition analyzeSearchResults (openai : OpenAI) (query : string)
           (searchResults : list SearchResult) (traceSteps : list AgentTraceStep)
  : M AgentTraceStep :=
  let hasMockResults := Js.every isPlaceholder searchResults in
  content <- createChatCompletion openai Prompt.analysisSystem
               (Prompt.analysis query searchResults hasMockResults) ;;
  ret (analysisStepOf query searchResults content).

(** *** Lines 109-181 *)

Definition failureNote : string :=
  " After multiple search failures, proceeding with available information.".

(** [x?.includes(a) || x?.includes(b)] on the optional reflection. *)
Definition saysEnough (reflection : option string) : bool :=
  match reflection with
  | Some r => Js.includes r "sufficient information" || Js.includes r "enough information"
  | None => false
  end.

(** The object literal of lines 125-129. *)
Definition newSearchStep (refinedQuery : string) : AgentTraceStep :=
  mkStep "I need to search for more specific information about this topic."
         (Js.tpl ["Searching for: "; Js.dq; refinedQuery; Js.dq])
         "Waiting for search results..."
         None.

(** The observations assigned at lines 147, 157 and 171. *)
Definition placeholdersObservation : string :=
  "Search returned no real results (using generated placeholders instead).".

Definition foundObservation (searchResults : list SearchResult) : string :=
  Js.tpl ["Found "; Js.ofNat (length searchResults); " results for refined query."].

Definition errorObservation : string := "Error occurred during search.".

(** The body of the loop, lines 121-179: one round. *)
Definition researchRound (openai : OpenAI) (originalQuery : string) : M Round :=
  traceSteps <- getTraceSteps ;;
  refinedQuery <- generateRefinedQuery openai originalQuery traceSteps ;;
  searchStep <- push (newSearchStep refinedQuery) ;;
  tryCatch
    (searchResults <- performSearch env refinedQuery ;;
     let hasMockResults := Js.every isPlaceholder searchResults in
     early <-
       (if hasMockResults then
          incrFailures ;;;
          setObservation searchStep placeholdersObservation ;;;
          failures <- getFailures ;;
          if 2 <=? failures then
            appendObservation searchStep failureNote ;;; ret Break
          else ret Next
        else
          setFailures 0 ;;;
          setObservation searchStep (foundObservation searchResults) ;;;
          ret Next) ;;
     match early with
     | Break => ret Break
     | Next =>
         traceSteps' <- getTraceSteps ;;
         analysisStep <- analyzeSearchResults openai refinedQuery searchResults traceSteps' ;;
         _ <- push analysisStep ;;
         if saysEnough (reflection analysisStep) then ret Break else ret Next
     end)
    (fun _error =>
       setObservation searchStep errorObservation ;;;
       incrFailures ;;;
       failures <- getFailures ;;
       if 2 <=? failures then
         appendObservation searchStep failureNote ;;; ret Break
       else ret Next).

(** [for (let i = 0; i < maxIterations; i++)], [remaining] iterations left. *)
Fixpoint researchRounds (openai : OpenAI) (originalQuery : string) (remaining : nat)
  : M unit :=
  match remaining with
  | 0 => ret tt
  | S remaining' =>
      round <- researchRound openai originalQuery ;;
      match round with
      | Break => ret tt
      | Next => researchRounds openai originalQuery remaining'
      end
  end.

(** The [traceSteps] argument is the array of the world, passed by
    reference; [plan] is not used by the body. *)
Definition performIterativeResearch (openai : OpenAI) (originalQuery plan : string)
           (maxIterations : nat) : M unit :=
  setFailures 0 ;;;
  researchRounds openai originalQuery maxIterations.

(** *** Lines 304-359 *)

(** The filter of lines 313-315. *)
Definition isAnalysis (step : AgentTraceStep) : bool :=
  Js.includes (action step) "Analyzing results"
  && match Js.truthy (reflection step) with Some _ => true | None => false end.

(** Lines 311-316; the first element is [undefined] on an empty array. *)
Definition essentialSteps (traceSteps : list AgentTraceStep)
  : list (option AgentTraceStep) :=
  nth_error traceSteps 0 :: map Some (Js.sliceLast 2 (filter isAnalysis traceSteps)).

(** Lines 318-320: reading a field of [undefined] is a TypeError. *)
Fixpoint renderSteps (i : nat) (steps : list (option AgentTraceStep))
  : Result (list string) :=
  match steps with
  | [] => Ok []
  | None :: _ =>
      Throw (mkError "TypeError" "Cannot read properties of undefined (reading 'thought')")
  | Some s :: rest =>
      match renderSteps (S i) rest with
      | Ok l => Ok (Prompt.step i s :: l)
      | Throw e => Throw e
      end
  end.

Definition finalPrompt (originalQuery : string) (traceSteps : list AgentTraceStep)
           (previousContext : string) : Result string :=
  match renderSteps 0 (essentialSteps traceSteps) with
  | Ok rendered =>
      Ok (Prompt.final originalQuery (Js.join (Js.nl ++ Js.nl) rendered) previousContext)
  | Throw e => Throw e
  end.

Definition generateFinalOutput (openai : OpenAI) (originalQuery : string)
           (traceSteps : list AgentTraceStep) (previousContext : string) : M string :=
  prompt <- await (finalPrompt originalQuery traceSteps previousContext) ;;
  content <- createChatCompletion openai Prompt.finalSystem prompt ;;
  ret (Js.orElse content "Unable to generate a response based on the research.").

(** *** Lines 23-57 *)

Definition generateResearchResponse (query : string)
           (initialSearchResults : list SearchResult) (previousContext : string)
  : M AgentResponse :=
  openai <- initOpenAI ;;
  newTraceSteps ;;;
  planningStep <- generatePlanningStep openai query initialSearchResults previousContext ;;
  _ <- push planningStep ;;
  performIterativeResearch openai query (Js.orElse (reflection planningStep) EmptyString) 2 ;;;
  traceSteps <- getTraceSteps ;;
  finalOutput <- generateFinalOutput openai query traceSteps previousContext ;;
  traceSteps' <- getTraceSteps ;;
  ret (mkAgentResponse traceSteps' finalOutput).

End Agent.

(* ===================================================================== *)
(** ** src/utils/types.ts, the chats *)

Module Route.

(** [src/utils/types.ts], interfaces ChatMessage and ChatHistoryEntry. *)
Record ChatMessage : Type := mkChatMessage {
  messageId : string;
  timestamp : nat;
  content : string;
  isUser : bool;
  response : option AgentResponse
}.

Record ChatHistoryEntry : Type := mkChatHistoryEntry {
  id : string;
  chatTitle : string;
  createdAt : nat;
  updatedAt : nat;
  messages : list ChatMessage
}.

End Route.

(* ===================================================================== *)
(** ** src/utils/chatStore.ts

    The source of this module follows the component in
    [src/components/AgentOutput.tsx]. *)

Module ChatStore.

(** What the store takes from outside: [uuidv4()], 128 random bits, and
    [Date.now()]; each as a function of the number of calls made before. *)
Record Sys : Type := mkSys {
  random : nat -> N;
  clock : nat -> nat
}.

Definition hexDigit (d : N) : ascii :=
  nth (N.to_nat d)
      [ "0"; "1"; "2"; "3"; "4"; "5"; "6"; "7";
        "8"; "9"; "a"; "b"; "c"; "d"; "e"; "f" ]%char
      "0"%char.

(** The [digits] lowest hexadecimal digits of [n], before [acc]. *)
Fixpoint hexOnto (digits : nat) (n : N) (acc : string) : string :=
  match digits with
  | 0 => acc
  | S digits' => hexOnto digits' (n / 16)%N (String (hexDigit (n mod 16)%N) acc)
  end.

(** The text of a UUID: 32 hexadecimal digits in groups of 8, 4, 4, 4 and
    12.  The bits that the package fixes (version and variant) are not
    singled out: every text of that shape is allowed. *)
Definition uuid (n : N) : string :=
  hexOnto 8 (n / 16 ^ 24)%N
    (String "-" (hexOnto 4 (n / 16 ^ 20)%N
       (String "-" (hexOnto 4 (n / 16 ^ 16)%N
          (String "-" (hexOnto 4 (n / 16 ^ 12)%N
             (String "-" (hexOnto 12 n EmptyString)))))))).

(** The object [chatStore.chats], its own properties in the order of their
    creation (the order of [Object.values], the keys being UUIDs), and the
    calls made so far. *)
Record Store : Type := mkStore {
  chats : list (string * Route.ChatHistoryEntry);
  uuidCalls : nat;
  clockCalls : nat
}.

(** Lines 73-75: the store when the module is loaded. *)
Definition chatStore : Store := mkStore [] 0 0.

(** The properties that every object literal inherits from
    [Object.prototype]; the value of each is a function or an object. *)
Definition inheritedKeys : list string :=
  [ "constructor"; "__defineGetter__"; "__defineSetter__"; "hasOwnProperty";
    "__lookupGetter__"; "__lookupSetter__"; "isPrototypeOf";
    "propertyIsEnumerable"; "toString"; "valueOf"; "__proto__";
    "toLocaleString" ].

(** What [chatStore.chats[chatId]] evaluates to: an entry of the store,
    an inherited value (truthy, and without [messages]), or [undefined]. *)
Inductive Slot : Type :=
| Entry (chat : Route.ChatHistoryEntry)
| Inherited
| Missing.

Fixpoint own (key : string) (l : list (string * Route.ChatHistoryEntry))
  : option Route.ChatHistoryEntry :=
  match l with
  | [] => None
  | (k, chat) :: l' => if String.eqb k key then Some chat else own key l'
  end.

Definition lookup (key : string) (st : Store) : Slot :=
  match own key (chats st) with
  | Some chat => Entry chat
  | None => if existsb (String.eqb key) inheritedKeys then Inherited else Missing
  end.

(** [chats[key] = chat]: an own property keeps its place, a new one comes
    last. *)
Fixpoint assign (key : string) (chat : Route.ChatHistoryEntry)
         (l : list (string * Route.ChatHistoryEntry))
  : list (string * Route.ChatHistoryEntry) :=
  match l with
  | [] => [(key, chat)]
  | (k, c) :: l' =>
      if String.eqb k key then (k, chat) :: l' else (k, c) :: assign key chat l'
  end.

Definition pushError : JsError :=
  mkError "TypeError" "Cannot read properties of undefined (reading 'push')".

Definition lengthError : JsError :=
  mkError "TypeError" "Cannot read properties of undefined (reading 'length')".

Section Functions.

Variable sys : Sys.

Definition uuidv4 (n : nat) : string := uuid (random sys n).

(** Lines 81-102. *)
Definition createChat (query : string) (st : Store) : string * Store :=
  let chatId := uuidv4 (uuidCalls st) in
  let messageId := uuidv4 (S (uuidCalls st)) in
  let timestamp := clock sys (clockCalls st) in
  let initialMessage := Route.mkChatMessage messageId timestamp query true None in
  (chatId,
   mkStore (assign chatId
              (Route.mkChatHistoryEntry chatId query timestamp timestamp [initialMessage])
              (chats st))
           (S (S (uuidCalls st))) (S (clockCalls st))).

(** Lines 107-126.  The test of line 111 also passes on an inherited
    value, whose [messages] is [undefined]. *)
Definition addAgentResponseToChat (chatId : string) (response : AgentResponse)
           (st : Store) : Result unit * Store :=
  match lookup chatId st with
  | Entry chat =>
      let messageId := uuidv4 (uuidCalls st) in
      let timestamp := clock sys (clockCalls st) in
      let agentMessage :=
        Route.mkChatMessage messageId timestamp (finalOutput response) false
                            (Some response) in
      (Ok tt,
       mkStore (assign chatId
                  (Route.mkChatHistoryEntry
                     (Route.id chat) (Route.chatTitle chat) (Route.createdAt chat)
                     timestamp (Route.messages chat ++ [agentMessage]))
                  (chats st))
               (S (uuidCalls st)) (S (clockCalls st)))
  | Inherited =>
      (Throw pushError, mkStore (chats st) (S (uuidCalls st)) (S (clockCalls st)))
  | Missing => (Ok tt, st)
  end.

(** Lines 131-146. *)
Definition addUserMessageToChat (chatId message : string) (st : Store)
  : Result unit * Store :=
  match lookup chatId st with
  | Entry chat =>
      let messageId := uuidv4 (uuidCalls st) in
      let timestamp := clock sys (clockCalls st) in
      let userMessage := Route.mkChatMessage messageId timestamp message true None in
      (Ok tt,
       mkStore (assign chatId
                  (Route.mkChatHistoryEntry
                     (Route.id chat) (Route.chatTitle chat) (Route.createdAt chat)
                     timestamp (Route.messages chat ++ [userMessage]))
                  (chats st))
               (S (uuidCalls st)) (S (clockCalls st)))
  | Inherited =>
      (Throw pushError, mkStore (chats st) (S (uuidCalls st)) (S (clockCalls st)))
  | Missing => (Ok tt, st)
  end.

(** The loop of lines 156-160, about to read [messages[i - 1]]. *)
Fixpoint latestUser (messages : list Route.ChatMessage) (i : nat)
  : Result (option string) :=
  match i with
  | 0 => Ok None
  | S i' =>
      match nth_error messages i' with
      | Some message =>
          if Route.isUser message then Ok (Some (Route.content message))
          else latestUser messages i'
      | None =>
          Throw (mkError "TypeError"
                         "Cannot read properties of undefined (reading 'isUser')")
      end
  end.

(** Lines 151-163. *)
Definition getLatestUserMessage (chatId : string) (st : Store)
  : Result (option string) :=
  match lookup chatId st with
  | Entry chat => latestUser (Route.messages chat) (length (Route.messages chat))
  | Inherited => Throw lengthError
  | Missing => Ok None
  end.

(** Lines 168-170. *)
Definition updateChat (chatId : string) (response : AgentResponse) (st : Store)
  : Result unit * Store :=
  addAgentResponseToChat chatId response st.

(** Lines 175-177: [null] for [undefined], the value as it is otherwise. *)
Definition getChat (chatId : string) (st : Store) : Slot :=
  match lookup chatId st with
  | Missing => Missing
  | found => found
  end.

(** [Array.prototype.sort] is stable: with the comparator of line 184 a
    chat comes before the first one that was not updated after it. *)
Fixpoint insertByUpdate (chat : Route.ChatHistoryEntry)
         (sorted : list Route.ChatHistoryEntry) : list Route.ChatHistoryEntry :=
  match sorted with
  | [] => [chat]
  | other :: sorted' =>
      if Route.updatedAt other <=? Route.updatedAt chat
      then chat :: other :: sorted'
      else other :: insertByUpdate chat sorted'
  end.

(** Lines 182-186. *)
Definition getAllChats (st : Store) : list Route.ChatHistoryEntry :=
  fold_right insertByUpdate [] (map snd (chats st)).

(** Lines 191-193. *)
Definition clearAllChats (st : Store) : Store :=
  mkStore [] (uuidCalls st) (clockCalls st).

End Functions.

End ChatStore.

(* ===================================================================== *)
(** ** src/app/api/ask/route.ts, processQuery

    [processQuery] runs on the store of [chatStore.ts], which it reads
    with [getChat] and writes with [addAgentResponseToChat]. *)

Module Ask.

(** The state of the server while one request runs alone: the world of
    the agent and the chat store. *)
Record Server : Type := mkServer {
  world : World;
  store : ChatStore.Store
}.

Section ProcessQuery.

Variable env : Env.
Variable sys : ChatStore.Sys.

(** Lines 88-106 on what [getChat] returns: [null] is falsy, and an
    inherited value has no [messages]. *)
Definition conversationContext (chatId : string) (st : ChatStore.Store)
  : Result string :=
  match ChatStore.getChat chatId st with
  | ChatStore.Entry chat =>
      Ok (if 1 <? length (Route.messages chat) then
            Js.join (Js.nl ++ Js.nl)
              (map (fun msg =>
                      if Route.isUser msg then Js.tpl ["User: "; Route.content msg]
                      else Js.tpl ["Assistant: "; Route.content msg])
                   (Js.sliceLast 6 (Route.messages chat)))
          else EmptyString)
  | ChatStore.Inherited => Throw ChatStore.lengthError
  | ChatStore.Missing => Ok EmptyString
  end.

(** Lines 80-124. *)
Definition processQuery (query chatId : string) (sv : Server)
  : Result (string * AgentResponse) * Server :=
  match performSearch env query (world sv) with
  | (Throw e, w1) => (Throw e, mkServer w1 (store sv))
  | (Ok searchResults, w1) =>
      match conversationContext chatId (store sv) with
      | Throw e => (Throw e, mkServer w1 (store sv))
      | Ok context =>
          match generateResearchResponse env query searchResults context w1 with
          | (Throw e, w2) => (Throw e, mkServer w2 (store sv))
          | (Ok agentResponse, w2) =>
              match ChatStore.addAgentResponseToChat sys chatId agentResponse
                      (store sv) with
              | (Throw e, st') => (Throw e, mkServer w2 st')
              | (Ok _, st') => (Ok (chatId, agentResponse), mkServer w2 st')
              end
          end
      end
  end.

End ProcessQuery.

End Ask.

(* ===================================================================== *)
(** ** The store as the specification reads it

    This module is not a translation of the source.  The specification
    calls the chat store a trivial key-value map that the core only reads
    and writes; the two definitions below are [processQuery] under that
    reading: the chats are a map [chatOf] from chat ids to chats, and
    nothing is written.  They are there to be compared with
    [Ask.processQuery], the translation of the source. *)

Module SpecReading.

Section KeyValueMap.

Variable env : Env.
Variable chatOf : string -> option Route.ChatHistoryEntry.

Definition conversationContext (chatId : string) : string :=
  match chatOf chatId with
  | Some chat =>
      if 1 <? length (Route.messages chat) then
        Js.join (Js.nl ++ Js.nl)
          (map (fun msg =>
                  if Route.isUser msg then Js.tpl ["User: "; Route.content msg]
                  else Js.tpl ["Assistant: "; Route.content msg])
               (Js.sliceLast 6 (Route.messages chat)))
      else EmptyString
  | None => EmptyString
  end.

Definition processQuery (query chatId : string) : M (string * AgentResponse) :=
  searchResults <- performSearch env query ;;
  let context := conversationContext chatId in
  agentResponse <- generateResearchResponse env query searchResults context ;;
  ret (chatId, agentResponse).

End KeyValueMap.

End SpecReading.

(* ===================================================================== *)
(** * Vocabulary of the properties *)

(** ** Worlds and events *)

Definition withObservation (s : AgentTraceStep) (obs : string) : AgentTraceStep :=
  mkStep (thought s) (action s) obs (reflection s).

(** The error thrown by [initOpenAI] without a key. *)
Definition missingKey : JsError :=
  mkError "Error" "OPENAI_API_KEY is not defined in environment variables".

(** The events recorded between the worlds [w] and [w']. *)
Definition since (w w' : World) : list Event :=
  skipn (length (events w)) (events w').

(** The waits recorded in a list of events. *)
Definition delays (evs : list Event) : list nat :=
  flat_map (fun ev => match ev with EvSleep ms => [ms] | _ => [] end) evs.

Definition isChat (ev : Event) : bool :=
  match ev with
  | EvChat _ _ _ => true
  | _ => false
  end.

(** The number of chat completions asked with the system message [system]:
    each function of [llm.ts] has its own. *)
Definition countChat (system : string) (evs : list Event) : nat :=
  length (filter (fun ev => match ev with
                            | EvChat s _ _ => String.eqb s system
                            | _ => false
                            end) evs).

(** The world after [n] more fetches that left the events [evs]. *)
Definition fetched (w : World) (n : nat) (evs : list Event) : World :=
  mkWorld (chatCalls w) (n + fetchCalls w) (events w ++ evs) (trace w)
          (consecutiveFailures w).

(** ** Attempts of the search gateway *)

(** What one attempt of the gateway came to. *)
Inductive Attempt : Type :=
| Found (results : list SearchResult)
| BadStatus
| NoResults
| Raised.

(** The reading of a provider outcome made by lines 46-117: the fetch
    rejected (transport error, or the abort of the 20 second timer) or a
    body could not be read; the response was not 2xx; [organic] was missing
    or empty; or there are results. *)
Definition attemptOf (out : Result Response) : Attempt :=
  match out with
  | Throw _ => Raised
  | Ok response =>
      if ok response then
        match json response with
        | Throw _ => Raised
        | Ok data =>
            match organic data with
            | None | Some [] => NoResults
            | Some results => Found results
            end
        end
      else
        match text response with
        | Throw _ => Raised
        | Ok _ => BadStatus
        end
  end.

Definition failed (a : Attempt) : Prop :=
  match a with
  | Found _ => False
  | _ => True
  end.

(** The wait that follows a failed attempt which is not the last one. *)
Definition backoff (attempt : nat) (a : Attempt) : list Event :=
  match a with
  | BadStatus => [EvSleep (attempt * 1000)]
  | Raised => [EvSleep (attempt * 1500)]
  | NoResults | Found _ => []
  end.

(** The links of the synthetic batch: four on the reserved example
    domains and one page of en.wikipedia.org; they are the links that the
    test of the loop, [isPlaceholder], looks for. *)
Definition mockLinks : list string :=
  [ "https://example.com/resource1";
    "https://en.wikipedia.org/wiki/example";
    "https://example.org/research";
    "https://example.net/guide";
    "https://example.com/expert-analysis" ].

(** The three requests a search may make, counted from the first. *)
Definition request (env : Env) (key query : string) (w : World) (i : nat) : Result Response :=
  serper env (i + fetchCalls w) key (Js.stripQuotes query).

(** All three attempts of a search fail. *)
Definition allAttemptsFail (env : Env) (key query : string) (w : World) : Prop :=
  forall i, i < 3 -> failed (attemptOf (request env key query w i)).

(** ** The ways a round, the loop and an invocation can go *)

Section RoundSemantics.

Variable env : Env.
Variable originalQuery : string.

(** The refinement request of a round that starts in [w], and the answer. *)
Definition refinementPrompt (w : World) : string :=
  Prompt.refinement originalQuery (trace w).

Definition refinementReply (w : World) : Completion :=
  chatCompletions env (chatCalls w) Prompt.refinementSystem (refinementPrompt w).

Definition refinementEvent (w : World) : Event :=
  EvChat Prompt.refinementSystem (refinementPrompt w) (refinementReply w).

(** The analysis request of that round on the results [rs] of the search
    for [rq], and the answer. *)
Definition analysisPrompt (rq : string) (rs : list SearchResult) : string :=
  Prompt.analysis rq rs (Js.every isPlaceholder rs).

Definition analysisReply (w : World) (rq : string) (rs : list SearchResult) : Completion :=
  chatCompletions env (S (chatCalls w)) Prompt.analysisSystem (analysisPrompt rq rs).

Definition analysisEvent (w : World) (rq : string) (rs : list SearchResult) : Event :=
  EvChat Prompt.analysisSystem (analysisPrompt rq rs) (analysisReply w rq rs).

(** The search of that round: it runs after the refinement call and the
    push of the search step, gives [rs], and leaves [n] fetches and the
    events [evs]. *)
Definition searched (w : World) (rq : string) (rs : list SearchResult)
           (n : nat) (evs : list Event) : Prop :=
  let w1 := mkWorld (S (chatCalls w)) (fetchCalls w)
                    (events w ++ [refinementEvent w])
                    (trace w ++ [newSearchStep rq]) (consecutiveFailures w) in
  performSearch env rq w1 = (Ok rs, fetched w1 n evs)
  /\ n <= 3
  /\ forallb (fun ev => negb (isChat ev)) evs = true.

(** The counter after the search of a round was judged (lines 145-158). *)
Definition judged (w : World) (rs : list SearchResult) : nat :=
  if Js.every isPlaceholder rs then S (consecutiveFailures w) else 0.

(** The four ways a round can go. *)
Inductive RoundRun (w : World) : Result Round -> World -> Prop :=
| RefinementFails (e : JsError) :
    refinementReply w = Failed e ->
    RoundRun w (Throw e)
      (mkWorld (S (chatCalls w)) (fetchCalls w)
               (events w ++ [refinementEvent w])
               (trace w) (consecutiveFailures w))
| GivesUp (content : option string) (rs : list SearchResult) (n : nat) (evs : list Event) :
    let rq := refinedQueryOf originalQuery content in
    refinementReply w = Replied content ->
    searched w rq rs n evs ->
    Js.every isPlaceholder rs = true ->
    2 <= S (consecutiveFailures w) ->
    RoundRun w (Ok Break)
      (mkWorld (S (chatCalls w)) (n + fetchCalls w)
               (events w ++ refinementEvent w :: evs)
               (trace w ++ [withObservation (newSearchStep rq)
                              (placeholdersObservation ++ failureNote)])
               (S (consecutiveFailures w)))
| AnalysisFails (content : option string) (rs : list SearchResult) (n : nat)
                (evs : list Event) (e : JsError) :
    let rq := refinedQueryOf originalQuery content in
    let failures := S (judged w rs) in
    refinementReply w = Replied content ->
    searched w rq rs n evs ->
    (Js.every isPlaceholder rs = false \/ S (consecutiveFailures w) < 2) ->
    analysisReply w rq rs = Failed e ->
    RoundRun w (Ok (if 2 <=? failures then Break else Next))
      (mkWorld (S (S (chatCalls w))) (n + fetchCalls w)
               (events w ++ refinementEvent w :: evs ++ [analysisEvent w rq rs])
               (trace w ++ [withObservation (newSearchStep rq)
                              (if 2 <=? failures
                               then errorObservation ++ failureNote
                               else errorObservation)])
               failures)
| Analysed (content : option string) (rs : list SearchResult) (n : nat)
           (evs : list Event) (analysis : option string) :
    let rq := refinedQueryOf originalQuery content in
    let analysisStep := analysisStepOf rq rs analysis in
    refinementReply w = Replied content ->
    searched w rq rs n evs ->
    (Js.every isPlaceholder rs = false \/ S (consecutiveFailures w) < 2) ->
    analysisReply w rq rs = Replied analysis ->
    RoundRun w (Ok (if saysEnough (reflection analysisStep) then Break else Next))
      (mkWorld (S (S (chatCalls w))) (n + fetchCalls w)
               (events w ++ refinementEvent w :: evs ++ [analysisEvent w rq rs])
               (trace w ++ [withObservation (newSearchStep rq)
                              (if Js.every isPlaceholder rs
                               then placeholdersObservation
                               else foundObservation rs);
                            analysisStep])
               (judged w rs)).

(** The rounds of [researchRounds], with [n] iterations left. *)
Inductive RoundsRun : nat -> World -> Result unit -> World -> Prop :=
| NoRoundLeft (w : World) :
    RoundsRun 0 w (Ok tt) w
| RoundThrows (n : nat) (w w' : World) (e : JsError) :
    RoundRun w (Throw e) w' ->
    RoundsRun (S n) w (Throw e) w'
| RoundBreaks (n : nat) (w w' : World) :
    RoundRun w (Ok Break) w' ->
    RoundsRun (S n) w (Ok tt) w'
| RoundContinues (n : nat) (w w1 w' : World) (r : Result unit) :
    RoundRun w (Ok Next) w1 ->
    RoundsRun n w1 r w' ->
    RoundsRun (S n) w r w'.

End RoundSemantics.

Section InvocationSemantics.

Variable env : Env.

(** The synthesis that follows the loop, which ended with [rr] in [w2]. *)
Inductive Synthesis (query previousContext : string)
  : Result unit -> World -> Result AgentResponse -> World -> Prop :=
| LoopThrew (e : JsError) (w2 : World) :
    Synthesis query previousContext (Throw e) w2 (Throw e) w2
| PromptThrows (e : JsError) (w2 : World) :
    finalPrompt query (trace w2) previousContext = Throw e ->
    Synthesis query previousContext (Ok tt) w2 (Throw e) w2
| Synthesised (prompt : string) (w2 : World) :
    let reply := chatCompletions env (chatCalls w2) Prompt.finalSystem prompt in
    finalPrompt query (trace w2) previousContext = Ok prompt ->
    Synthesis query previousContext (Ok tt) w2
      match reply with
      | Replied content =>
          Ok (mkAgentResponse
                (trace w2)
                (Js.orElse content "Unable to generate a response based on the research."))
      | Failed e => Throw e
      end
      (mkWorld (S (chatCalls w2)) (fetchCalls w2)
               (events w2 ++ [EvChat Prompt.finalSystem prompt reply])
               (trace w2) (consecutiveFailures w2)).

(** The planning call and what follows it. *)
Inductive Planned (query : string) (initialSearchResults : list SearchResult)
          (previousContext : string) (w : World)
  : Result AgentResponse -> World -> Prop :=
| PlanningFails (e : JsError) :
    let prompt := Prompt.planning query initialSearchResults previousContext in
    let reply := chatCompletions env (chatCalls w) Prompt.planningSystem prompt in
    reply = Failed e ->
    Planned query initialSearchResults previousContext w (Throw e)
      (mkWorld (S (chatCalls w)) (fetchCalls w)
               (events w ++ [EvChat Prompt.planningSystem prompt reply])
               [] (consecutiveFailures w))
| LoopRuns (content : option string) (rr : Result unit) (w2 : World)
           (r : Result AgentResponse) (w' : World) :
    let prompt := Prompt.planning query initialSearchResults previousContext in
    let reply := chatCompletions env (chatCalls w) Prompt.planningSystem prompt in
    reply = Replied content ->
    RoundsRun env query 2
      (mkWorld (S (chatCalls w)) (fetchCalls w)
               (events w ++ [EvChat Prompt.planningSystem prompt reply])
               [planningStepOf query content] 0)
      rr w2 ->
    Synthesis query previousContext rr w2 r w' ->
    Planned query initialSearchResults previousContext w r w'.

(** The ways an invocation can go. *)
Inductive Invocation (query : string) (initialSearchResults : list SearchResult)
          (previousContext : string) (w : World)
  : Result AgentResponse -> World -> Prop :=
| NoKey :
    Js.truthy (OPENAI_API_KEY env) = None ->
    Invocation query initialSearchResults previousContext w (Throw missingKey) w
| PlanningRuns (key : string) (r : Result AgentResponse) (w' : World) :
    Js.truthy (OPENAI_API_KEY env) = Some key ->
    Planned query initialSearchResults previousContext w r w' ->
    Invocation query initialSearchResults previousContext w r w'.

End InvocationSemantics.

(** The steps one round leaves in the trace: its search step, whose
    observation has been assigned, then possibly its analysis step. *)
Inductive RoundSteps : list AgentTraceStep -> Prop :=
| SearchOnly (rq obs : string) :
    RoundSteps [withObservation (newSearchStep rq) obs]
| SearchThenAnalysis (rq obs : string) (rs : list SearchResult) (content : option string) :
    RoundSteps [withObservation (newSearchStep rq) obs; analysisStepOf rq rs content].




(** What a round asks: one refined query, at most three fetches and at
    most one analysis; no plan and no synthesis. *)
Definition roundCalls (w w' : World) (rounds : nat) : Prop :=
  exists evs,
    events w' = events w ++ evs
    /\ countChat Prompt.refinementSystem evs <= rounds
    /\ countChat Prompt.analysisSystem evs <= rounds
    /\ countChat Prompt.planningSystem evs = 0
    /\ countChat Prompt.finalSystem evs = 0
    /\ fetchCalls w' <= 3 * rounds + fetchCalls w.

(** ** Failures of the model calls *)

(** The system messages of the calls whose failure nothing catches. *)
Definition uncaught : list string :=
  [Prompt.planningSystem; Prompt.refinementSystem; Prompt.finalSystem].

(** No failed call among [evs], except analysis calls. *)
Definition clean (evs : list Event) : Prop :=
  forall s u e, In (EvChat s u (Failed e)) evs -> s = Prompt.analysisSystem.

(** The result [r] of a computation that recorded [evs]: it throws [e]
    exactly when its last call is a planning, refinement or synthesis
    call that failed with [e]; any call that failed earlier is an
    analysis call. *)
Definition abortedBy {A : Type} (r : Result A) (evs : list Event) : Prop :=
  match r with
  | Ok _ => clean evs
  | Throw e =>
      exists before s u,
        evs = before ++ [EvChat s u (Failed e)] /\ clean before /\ In s uncaught
  end.

(** ** Concrete environments *)

(** Concrete providers and models, for the examples. *)
Module Examples.

Definition networkError : JsError := mkError "TypeError" "fetch failed".

Definition rateLimited : JsError := mkError "Error" "429 Too Many Requests".

(** The search provider cannot be reached: every fetch rejects. *)
Definition unreachable : nat -> string -> string -> Result Response :=
  fun _ _ _ => Throw networkError.

(** The search provider answers every request with a 500. *)
Definition serverError : nat -> string -> string -> Result Response :=
  fun _ _ _ =>
    Ok (mkResponse false 500 (Ok "Internal Server Error")
                   (Throw (mkError "SyntaxError" "Unexpected token I in JSON"))).

(** The search provider answers every request with no organic result. *)
Definition nothingFound : nat -> string -> string -> Result Response :=
  fun _ _ _ => Ok (mkResponse true 200 (Ok "{}") (Ok (mkSearchResponse (Some [])))).

Definition realResults : list SearchResult :=
  [ mkSearchResult "Electric cars - Car and Driver" "https://www.caranddriver.com/ev"
                   "Every electric vehicle, ranked." 1;
    mkSearchResult "EV buying guide" "https://www.edmunds.com/electric-car/"
                   "Compare range and price." 2 ].

(** The search provider answers every request with two real results. *)
Definition online : nat -> string -> string -> Result Response :=
  fun _ _ _ => Ok (mkResponse true 200 (Ok "{}") (Ok (mkSearchResponse (Some realResults)))).

(** A model that always answers the same text. *)
Definition parrot (answer : string) : nat -> string -> string -> Completion :=
  fun _ _ _ => Replied (Some answer).

(** A model whose analysis calls fail and whose other calls answer. *)
Definition analysisDown (answer : string) : nat -> string -> string -> Completion :=
  fun _ system _ =>
    if String.eqb system Prompt.analysisSystem then Failed rateLimited
    else Replied (Some answer).

Definition quoted (s : string) : string := Js.tpl [Js.dq; s; Js.dq].

Definition withKeys (model : nat -> string -> string -> Completion)
           (provider : nat -> string -> string -> Result Response) : Env :=
  mkEnv (Some "sk-test") (Some "serper-key") model provider.

(** The provider cannot be reached; the model asks for more each time. *)
Definition offline : Env := withKeys (parrot "More searching is needed.") unreachable.

(** The provider answers 500; the model asks for more each time. *)
Definition failing : Env := withKeys (parrot "More searching is needed.") serverError.

(** The provider finds nothing; the model asks for more each time. *)
Definition searching : Env := withKeys (parrot "More searching is needed.") nothingFound.

(** The provider gives real results; the model asks for more each time. *)
Definition researching : Env := withKeys (parrot "More searching is needed.") online.

(** The provider gives real results; the analysis calls of the model fail. *)
Definition flaky : Env := withKeys (analysisDown "electric cars 2024 range") online.

Definition client : OpenAI := mkOpenAI "sk-test".

Definition question : string := "best electric cars 2024".

(** The world of an invocation when its loop starts a round, with the
    given count of consecutive failures. *)
Definition planned (failures : nat) : World :=
  mkWorld 1 3 [] [planningStepOf question (Some "Compare range, price and charging.")]
          failures.

End Examples.

(** ** The claims that do not hold, as the specification words them *)

(** C8 as the specification words it: one fixed unit, and after the failed
    attempts 1 and 2 a wait of the attempt index times that unit, whatever
    the kind of the failure. *)
Definition uniformBackoff (unit : nat) : Prop :=
  forall (env : Env) (key query : string) (w : World),
    Js.truthy (SERPER_API_KEY env) = Some key ->
    allAttemptsFail env key query w ->
    exists evs,
      events (snd (performSearch env query w)) = events w ++ evs
      /\ delays evs = [1 * unit; 2 * unit].

(** C9 as the specification words it, at one search: when all three
    attempts fail, every title of the returned batch contains the text of
    the query as it was given. *)
Definition fallbackQuotesOriginal (env : Env) (key query : string) (w : World) : Prop :=
  Js.truthy (SERPER_API_KEY env) = Some key ->
  allAttemptsFail env key query w ->
  forall results w',
    performSearch env query w = (Ok results, w') ->
    length results = 5
    /\ NoDup (map link results)
    /\ Js.every isPlaceholder results = true
    /\ Forall (fun r => Js.includes (title r) query = true) results.


(** C4 as the specification words it, at one request for the query of the
    scenario: a response is produced, the loop has run one round only (it
    has generated one refined query), and the counter has reached 2. *)
Definition haltsAfterRoundOne (env : Env) (sys : ChatStore.Sys)
           (chatId : string) (sv : Ask.Server) : Prop :=
  exists response sv',
    Ask.processQuery env sys "best electric cars 2024" chatId sv
    = (Ok (chatId, response), sv')
    /\ finalOutput response <> EmptyString
    /\ countChat Prompt.refinementSystem (since (Ask.world sv) (Ask.world sv')) = 1
    /\ consecutiveFailures (Ask.world sv') = 2.

(** C5 as the specification words it, at one invocation: every failure of
    a model call it makes aborts it with that failure. *)
Definition everyModelFailureAborts (env : Env) (query : string)
           (initialSearchResults : list SearchResult) (previousContext : string)
           (w : World) : Prop :=
  let run := generateResearchResponse env query initialSearchResults previousContext w in
  forall s u e, In (EvChat s u (Failed e)) (since w (snd run)) -> fst run = Throw e.

(** Decides the comparisons of system messages that occur in the goal. *)
Ltac systems :=
  repeat match goal with
         | |- context [String.eqb ?a ?b] =>
             let v := eval vm_compute in (String.eqb a b) in
             change (String.eqb a b) with v
         end;
  cbv iota.

(** ** Further environments *)

Module Scenarios.

(** The first request is rejected, the later ones give real results. *)
Definition recoveringProvider : nat -> string -> string -> Result Response :=
  fun n k q => if n =? 0 then Examples.unreachable n k q else Examples.online n k q.

Definition recovering : Env :=
  Examples.withKeys (Examples.parrot "More searching is needed.") recoveringProvider.

(** The OpenAI key is not set; the provider gives real results. *)
Definition noModelKey : Env :=
  mkEnv None (Some "serper-key") (Examples.parrot "More searching is needed.")
        Examples.online.

(** The Serper key is not set. *)
Definition noSearchKey : Env :=
  mkEnv (Some "sk-test") None (Examples.parrot "More searching is needed.")
        Examples.online.

(** The provider gives real results; the model finds them sufficient. *)
Definition satisfied : Env :=
  Examples.withKeys (Examples.parrot "We now have sufficient information to answer.")
                    Examples.online.

(** The provider gives real results; the model answers with blanks only. *)
Definition speechless : Env :=
  Examples.withKeys (Examples.parrot (Js.tpl ["  "; Js.nl])) Examples.online.

End Scenarios.

(* ===================================================================== *)
(** ** The chat store *)

(** One call of a function that writes to the store. *)
Inductive StoreStep (sys : ChatStore.Sys) : ChatStore.Store -> ChatStore.Store -> Prop :=
| Created (query : string) (st : ChatStore.Store) :
    StoreStep sys st (snd (ChatStore.createChat sys query st))
| UserMessageAdded (chatId message : string) (st : ChatStore.Store) :
    StoreStep sys st (snd (ChatStore.addUserMessageToChat sys chatId message st))
| AgentResponseAdded (chatId : string) (response : AgentResponse) (st : ChatStore.Store) :
    StoreStep sys st (snd (ChatStore.addAgentResponseToChat sys chatId response st))
| Updated (chatId : string) (response : AgentResponse) (st : ChatStore.Store) :
    StoreStep sys st (snd (ChatStore.updateChat sys chatId response st))
| Cleared (st : ChatStore.Store) :
    StoreStep sys st (ChatStore.clearAllChats st).

(** The stores that the functions of the module can build. *)
Inductive Reachable (sys : ChatStore.Sys) : ChatStore.Store -> Prop :=
| Loaded : Reachable sys ChatStore.chatStore
| Stepped (st st' : ChatStore.Store) :
    Reachable sys st -> StoreStep sys st st' -> Reachable sys st'.

(** A user message carries no response; an agent message carries the
    response whose final output is its content. *)
Definition consistentMessage (message : Route.ChatMessage) : Prop :=
  if Route.isUser message then Route.response message = None
  else exists response,
         Route.response message = Some response
         /\ Route.content message = finalOutput response.

(** A chat under its key: its id is the key, a UUID; its first message is
    the question that gave it its title, sent when it was created; its
    last message was added when it was last updated. *)
Definition wellFormedChat (key : string) (chat : Route.ChatHistoryEntry) : Prop :=
  Route.id chat = key
  /\ String.length key = 36
  /\ Forall consistentMessage (Route.messages chat)
  /\ exists first rest,
       Route.messages chat = first :: rest
       /\ Route.isUser first = true
       /\ Route.content first = Route.chatTitle chat
       /\ Route.timestamp first = Route.createdAt chat
       /\ Route.timestamp (last rest first) = Route.updatedAt chat.

Definition wellFormed (st : ChatStore.Store) : Prop :=
  NoDup (map fst (ChatStore.chats st))
  /\ Forall (fun entry => wellFormedChat (fst entry) (snd entry)) (ChatStore.chats st).

(** The chat [chat] after [message] was pushed at [timestamp]. *)
Definition withMessage (chat : Route.ChatHistoryEntry) (message : Route.ChatMessage)
  : Route.ChatHistoryEntry :=
  Route.mkChatHistoryEntry (Route.id chat) (Route.chatTitle chat) (Route.createdAt chat)
                           (Route.timestamp message)
                           (Route.messages chat ++ [message]).

(** The line of a message in the conversation context. *)
Definition contextLine (message : Route.ChatMessage) : string :=
  if Route.isUser message then Js.tpl ["User: "; Route.content message]
  else Js.tpl ["Assistant: "; Route.content message].

Module Chats.

(** UUIDs and times that count up. *)
Definition counting : ChatStore.Sys :=
  ChatStore.mkSys (fun n => N.of_nat n) (fun n => 1000 + n).

(** The store after a first question. *)
Definition opened : ChatStore.Store :=
  snd (ChatStore.createChat counting Examples.question ChatStore.chatStore).

Definition openedId : string :=
  fst (ChatStore.createChat counting Examples.question ChatStore.chatStore).

End Chats.

(** * Properties *)

(** ** Strings *)

Section StringFacts.

Lemma prefix_append (s t : string) : String.prefix s (s ++ t) = true.
Proof.
  induction s as [|c s IH]; simpl; [now destruct t|].
  destruct (ascii_dec c c) as [_|ne]; [exact IH | contradiction].
Qed.

Lemma append_empty_r (s : string) : (s ++ EmptyString)%string = s.
Proof. induction s as [|c s IH]; simpl; [reflexivity | now rewrite IH]. Qed.

Lemma includes_unfold (hay needle : string) :
  Js.includes hay needle =
  if String.prefix needle hay then true
  else match hay with
       | EmptyString => false
       | String _ rest => Js.includes rest needle
       end.
Proof. destruct hay; reflexivity. Qed.

Lemma includes_at_start (needle rest : string) :
  Js.includes (needle ++ rest) needle = true.
Proof. rewrite includes_unfold, prefix_append. reflexivity. Qed.

Lemma includes_after (before hay needle : string) :
  Js.includes hay needle = true -> Js.includes (before ++ hay) needle = true.
Proof.
  intros H. induction before as [|c b IH]; [exact H|].
  change (String c b ++ hay)%string with (String c (b ++ hay)).
  rewrite includes_unfold, IH.
  now destruct (String.prefix needle (String c (b ++ hay))).
Qed.


Lemma tpl_cons (x : string) (l : list string) : Js.tpl (x :: l) = (x ++ Js.tpl l)%string.
Proof.
  unfold Js.tpl. destruct l as [|y l]; simpl; [now rewrite append_empty_r | reflexivity].
Qed.

(** A template literal contains the text of each of its interpolations. *)
Lemma includes_tpl (before after : list string) (x : string) :
  Js.includes (Js.tpl (before ++ x :: after)) x = true.
Proof.
  induction before as [|b before IH]; simpl.
  - rewrite tpl_cons. apply includes_at_start.
  - rewrite tpl_cons. now apply includes_after.
Qed.

End StringFacts.

(** ** The search gateway *)

Section SearchFacts.

Variable env : Env.

Lemma fetched_fetched (w : World) (n m : nat) (evs evs' : list Event) :
  fetched (fetched w n evs) m evs' = fetched w (m + n) (evs ++ evs').
Proof.
  unfold fetched; simpl. now rewrite <- app_assoc, Nat.add_assoc.
Qed.

(** One attempt, as a function of what the provider answered. *)
Lemma searchAttempt_run (key q : string) (attempt : nat) (w : World) :
  let out := serper env (fetchCalls w) key q in
  let a := attemptOf out in
  searchAttempt env key q attempt w =
  ( Ok (match a with
        | Found results => Return results
        | _ => if attempt =? 3 then Return (generateMockResults q) else Continue
        end),
    fetched w 1 (EvFetch key q out :: if attempt =? 3 then [] else backoff attempt a) ).
Proof.
  intros out a. subst a. unfold searchAttempt, tryCatch, bind, fetch, await.
  fold out. unfold fetched, attemptOf.
  destruct out as [response|e]; simpl.
  - destruct (ok response); simpl.
    + destruct (json response) as [data|e]; simpl.
      * destruct (organic data) as [[|r rs]|]; simpl;
          destruct (attempt =? 3); simpl; unfold ret;
            rewrite ?app_nil_r; try reflexivity.
        all: now rewrite <- ?app_assoc.
      * destruct (attempt =? 3); simpl; unfold ret, sleep; simpl;
          now rewrite <- ?app_assoc.
    + destruct (text response) as [t|e]; simpl;
        destruct (attempt =? 3); simpl; unfold ret, sleep; simpl;
          now rewrite <- ?app_assoc.
  - destruct (attempt =? 3); simpl; unfold ret, sleep; simpl;
      now rewrite <- ?app_assoc.
Qed.

(** The three attempts, unrolled. *)
Lemma searchAttempts_run (key q : string) (w : World) :
  let c := fetchCalls w in
  let out1 := serper env c key q in
  let out2 := serper env (1 + c) key q in
  let out3 := serper env (2 + c) key q in
  searchAttempts env key q 3 1 w =
  match attemptOf out1 with
  | Found r1 => (Ok (Some r1), fetched w 1 [EvFetch key q out1])
  | a1 =>
      match attemptOf out2 with
      | Found r2 =>
          (Ok (Some r2),
           fetched w 2 (EvFetch key q out1 :: backoff 1 a1 ++ [EvFetch key q out2]))
      | a2 =>
          (Ok (Some (match attemptOf out3 with
                     | Found r3 => r3
                     | _ => generateMockResults q
                     end)),
           fetched w 3 (EvFetch key q out1 :: backoff 1 a1 ++
                        EvFetch key q out2 :: backoff 2 a2 ++ [EvFetch key q out3]))
      end
  end.
Proof.
  intros c out1 out2 out3.
  assert (step : forall attempt remaining w0,
    searchAttempts env key q (S remaining) attempt w0 =
    match searchAttempt env key q attempt w0 with
    | (Ok (Return results), w1) => (Ok (Some results), w1)
    | (Ok Continue, w1) => searchAttempts env key q remaining (S attempt) w1
    | (Throw e, w1) => (Throw e, w1)
    end).
  { intros attempt remaining w0. simpl. unfold bind.
    destruct (searchAttempt env key q attempt w0) as [[[results|]|e] w1]; reflexivity. }
  rewrite step, searchAttempt_run. fold c out1.
  change (1 =? 3) with false.
  destruct (attemptOf out1) as [r1| | |] eqn:E1; cbv beta iota; try reflexivity.
  all: rewrite step, searchAttempt_run;
    change (serper env (fetchCalls (fetched _ _ _)) key q) with out2;
    change (2 =? 3) with false.
  all: destruct (attemptOf out2) as [r2| | |] eqn:E2; cbv beta iota;
    rewrite ?fetched_fetched; try reflexivity.
  all: rewrite step, searchAttempt_run;
    change (serper env (fetchCalls (fetched _ _ _)) key q) with out3;
    change (3 =? 3) with true.
  all: destruct (attemptOf out3) as [r3| | |] eqn:E3; cbv beta iota zeta;
    rewrite ?fetched_fetched, <- ?app_assoc; reflexivity.
Qed.

End SearchFacts.

Section GatewayTheorems.

Variable env : Env.

(** The gateway with a key: the result and the world, as a function of
    what the provider answered to the three possible requests. *)
Lemma performSearch_run (query key : string) (w : World) :
  Js.truthy (SERPER_API_KEY env) = Some key ->
  let q := Js.stripQuotes query in
  let c := fetchCalls w in
  let out1 := serper env c key q in
  let out2 := serper env (1 + c) key q in
  let out3 := serper env (2 + c) key q in
  performSearch env query w =
  match attemptOf out1 with
  | Found r1 => (Ok r1, fetched w 1 [EvFetch key q out1])
  | a1 =>
      match attemptOf out2 with
      | Found r2 =>
          (Ok r2, fetched w 2 (EvFetch key q out1 :: backoff 1 a1 ++ [EvFetch key q out2]))
      | a2 =>
          (Ok (match attemptOf out3 with
               | Found r3 => r3
               | _ => generateMockResults q
               end),
           fetched w 3 (EvFetch key q out1 :: backoff 1 a1 ++
                        EvFetch key q out2 :: backoff 2 a2 ++ [EvFetch key q out3]))
      end
  end.
Proof.
  intros Hkey q c out1 out2 out3. unfold performSearch. rewrite Hkey.
  unfold bind. rewrite searchAttempts_run. fold q c out1 out2 out3.
  destruct (attemptOf out1); try reflexivity;
    destruct (attemptOf out2); reflexivity.
Qed.

(** The gateway touches nothing but the provider: it returns, and the
    world it leaves differs by at most three fetches and by events that
    are no chat completions. *)
Lemma performSearch_frame (query : string) (w : World) :
  exists results n evs,
    performSearch env query w = (Ok results, fetched w n evs)
    /\ n <= 3 /\ forallb (fun ev => negb (isChat ev)) evs = true.
Proof.
  destruct (Js.truthy (SERPER_API_KEY env)) as [key|] eqn:Hkey.
  - rewrite (performSearch_run query key w Hkey).
    destruct (attemptOf _) eqn:E1.
    2-4: destruct (attemptOf (serper env (1 + _) _ _)) eqn:E2.
    all: eexists _, _, _; split; [reflexivity|]; split; [lia|].
    all: simpl; rewrite ?forallb_app; simpl; reflexivity.
  - unfold performSearch. rewrite Hkey. exists (generateMockResults query), 0, [].
    unfold ret, fetched. simpl. rewrite app_nil_r. destruct w; split; [reflexivity|].
    split; [lia | reflexivity].
Qed.

(** C7. Whatever the query and whatever the search provider does at each
    request (a response that is not 2xx, a transport error, the abort of
    the timer, an empty or missing result set, a body that cannot be
    read) and with or without an API key, [performSearch] returns a list
    of search results: it never throws. *)
Theorem performSearch_never_throws (query : string) (w : World) :
  exists (results : list SearchResult) (w' : World),
    performSearch env query w = (Ok results, w').
Proof.
  destruct (performSearch_frame query w) as (results & n & evs & H & _).
  now exists results, (fetched w n evs).
Qed.

End GatewayTheorems.

(** *** Retries and backoff *)

(** C8, the amended claim. With an API key, [performSearch] makes at most
    3 attempts, one after the other until one gives results; between a
    failed attempt and the next it waits the attempt index times 1000 ms
    when the response was not 2xx, the attempt index times 1500 ms when
    the request raised (transport error, timeout, unreadable body), and
    not at all when the result set was empty or missing; it does not wait
    after the third attempt. *)
Theorem performSearch_retry_schedule (env : Env) (query key : string) (w : World) :
  Js.truthy (SERPER_API_KEY env) = Some key ->
  let out := request env key query w in
  let tried i := EvFetch key (Js.stripQuotes query) (out i) in
  let w' := snd (performSearch env query w) in
  events w' = events w ++
    match attemptOf (out 0) with
    | Found _ => [tried 0]
    | a1 =>
        tried 0 :: backoff 1 a1 ++
        match attemptOf (out 1) with
        | Found _ => [tried 1]
        | a2 => tried 1 :: backoff 2 a2 ++ [tried 2]
        end
    end
  /\ fetchCalls w' <= 3 + fetchCalls w.
Proof.
  intros Hkey out tried w'. subst w'.
  rewrite (performSearch_run env query key w Hkey).
  unfold tried, out, request. cbn [Nat.add].
  destruct (attemptOf _) eqn:E1.
  2-4: destruct (attemptOf (serper env (S _) _ _)) eqn:E2.
  all: cbn [snd fetched events fetchCalls]; split; [reflexivity | lia].
Qed.

Lemma performSearch_retry_schedule_witness :
  Js.truthy (SERPER_API_KEY Examples.failing) = Some "serper-key"
  /\ delays (events (snd (performSearch Examples.failing Examples.question World0)))
     = [1000; 2000]
  /\ fetchCalls (snd (performSearch Examples.failing Examples.question World0)) <= 3.
Proof.
  destruct (performSearch_retry_schedule Examples.failing Examples.question "serper-key"
              World0 eq_refl) as [Hev Hn].
  split; [reflexivity|].
  split; [rewrite Hev; reflexivity | exact Hn].
Defined.

(** C8, counterexample. No unit fits: the same three failed attempts are
    followed by waits of 1000 and 2000 ms when the provider answers 500, and
    of 1500 and 3000 ms when it cannot be reached. *)
Lemma backoff_depends_on_failure_kind : ~ exists unit, uniformBackoff unit.
Proof.
  intros [unit H].
  destruct (H Examples.offline "serper-key" Examples.question World0 eq_refl)
    as (evs1 & E1 & D1).
  { intros i _. exact I. }
  destruct (H Examples.failing "serper-key" Examples.question World0 eq_refl)
    as (evs2 & E2 & D2).
  { intros i _. exact I. }
  cbn [events World0 app] in E1, E2. subst evs1 evs2.
  vm_compute in D1. vm_compute in D2.
  injection D1 as D1 _. injection D2 as D2 _. lia.
Qed.

(** An empty result set is retried at once: three requests, no wait. *)
Lemma empty_results_are_retried_at_once :
  delays (events (snd (performSearch Examples.searching Examples.question World0))) = []
  /\ fetchCalls (snd (performSearch Examples.searching Examples.question World0)) = 3.
Proof. split; vm_compute; reflexivity. Qed.

(** *** The synthetic batch *)

Lemma mock_links_distinct (query : string) :
  NoDup (map link (generateMockResults query)).
Proof.
  cbn [generateMockResults map link].
  repeat constructor; cbn [In]; intuition discriminate.
Qed.

Lemma mock_titles_quote_the_query (query : string) :
  Forall (fun r => Js.includes (title r) query = true) (generateMockResults query).
Proof.
  unfold generateMockResults. repeat constructor; cbn [title].
  - apply (includes_tpl ["Information about "] [" - Resource 1"]).
  - apply (includes_tpl [] [" - Wikipedia"]).
  - apply (includes_tpl ["Latest research on "] []).
  - apply (includes_tpl [] [": A comprehensive guide"]).
  - apply (includes_tpl ["Expert opinions on "] []).
Qed.

(** C9, the amended claim. When the provider call fails on all 3 attempts,
    [performSearch] returns the synthetic batch: exactly 5 entries, whose
    links are pairwise distinct and all on the placeholder domains, and
    whose titles all contain the query text from which one pair of
    wrapping quote characters has been stripped, which is the text that was
    sent to the provider (and is the original query when it is not wrapped
    in quotes). The links are those of [mockLinks]; placeholder is meant as
    the loop means it, by its test [isPlaceholder]. *)
Theorem performSearch_fallback (env : Env) (key query : string) (w : World) :
  Js.truthy (SERPER_API_KEY env) = Some key ->
  allAttemptsFail env key query w ->
  exists results w',
    performSearch env query w = (Ok results, w')
    /\ results = generateMockResults (Js.stripQuotes query)
    /\ length results = 5
    /\ map link results = mockLinks
    /\ NoDup (map link results)
    /\ Js.every isPlaceholder results = true
    /\ Forall (fun r => Js.includes (title r) (Js.stripQuotes query) = true) results.
Proof.
  intros Hkey Hfail.
  assert (Hrun : exists w', performSearch env query w
                            = (Ok (generateMockResults (Js.stripQuotes query)), w')).
  { rewrite (performSearch_run env query key w Hkey).
    pose proof (Hfail 0 ltac:(lia)) as F1.
    pose proof (Hfail 1 ltac:(lia)) as F2.
    pose proof (Hfail 2 ltac:(lia)) as F3.
    unfold request in F1, F2, F3. cbn [Nat.add] in *.
    set (q := Js.stripQuotes query) in *.
    destruct (attemptOf (serper env (fetchCalls w) key q)); [contradiction| | |].
    all: destruct (attemptOf (serper env (S (fetchCalls w)) key q)); [contradiction| | |].
    all: destruct (attemptOf (serper env (S (S (fetchCalls w))) key q));
      [contradiction| | |].
    all: eexists; reflexivity. }
  destruct Hrun as [w' Hrun].
  exists (generateMockResults (Js.stripQuotes query)), w'.
  split; [exact Hrun|]. split; [reflexivity|]. split; [reflexivity|].
  split; [reflexivity|].
  split; [apply mock_links_distinct|]. split; [reflexivity|].
  apply mock_titles_quote_the_query.
Qed.

Lemma performSearch_fallback_witness :
  exists results w',
    performSearch Examples.offline (Examples.quoted "best schools") World0 = (Ok results, w')
    /\ results = generateMockResults "best schools"
    /\ length results = 5
    /\ map link results = mockLinks
    /\ NoDup (map link results)
    /\ Js.every isPlaceholder results = true
    /\ Forall (fun r => Js.includes (title r) "best schools" = true) results.
Proof.
  apply (performSearch_fallback Examples.offline "serper-key"
           (Examples.quoted "best schools") World0).
  - reflexivity.
  - intros i _. exact I.
Defined.

(** C9, counterexample. The query is the quoted text of the specification's
    own example and the provider cannot be reached: the batch is built from
    the stripped text, and its titles do not contain the query as given. *)
Lemma fallback_titles_lose_the_quotes :
  ~ fallbackQuotesOriginal Examples.offline "serper-key"
      (Examples.quoted "best schools") World0.
Proof.
  intros H.
  specialize (H eq_refl (fun i _ => I) _ _ eq_refl).
  destruct H as (_ & _ & _ & Htitles).
  apply Forall_inv in Htitles. vm_compute in Htitles. discriminate.
Qed.

(** ** One round of the loop *)

Lemma modifyAt_pushed {A : Type} (f : A -> A) (l : list A) (x : A) :
  Js.modifyAt (length l) f (l ++ [x]) = l ++ [f x].
Proof. induction l as [|y l IH]; simpl; [reflexivity | now rewrite IH]. Qed.

Section RoundFacts.

Variable env : Env.
Variable openai : OpenAI.
Variable originalQuery : string.

Lemma analyzeSearchResults_run (rq : string) (rs : list SearchResult)
      (ts : list AgentTraceStep) (w : World) :
  let reply := chatCompletions env (chatCalls w) Prompt.analysisSystem
                               (analysisPrompt rq rs) in
  analyzeSearchResults env openai rq rs ts w =
  ( match reply with
    | Replied content => Ok (analysisStepOf rq rs content)
    | Failed e => Throw e
    end,
    mkWorld (S (chatCalls w)) (fetchCalls w)
            (events w ++ [EvChat Prompt.analysisSystem (analysisPrompt rq rs) reply])
            (trace w) (consecutiveFailures w) ).
Proof.
  unfold analyzeSearchResults, bind, createChatCompletion, analysisPrompt, ret.
  destruct (chatCompletions env _ _ _); reflexivity.
Qed.

Lemma ret_if {A : Type} (b : bool) (x y : A) (w : World) :
  (if b then ret x else ret y) w = (Ok (if b then x else y), w).
Proof. now destruct b. Qed.

(** The code of a round goes one of these four ways. *)
Lemma researchRound_run (w : World) (r : Result Round) (w' : World) :
  researchRound env openai originalQuery w = (r, w') -> RoundRun env originalQuery w r w'.
Proof.
  unfold researchRound, bind at 1, getTraceSteps.
  unfold bind at 1, generateRefinedQuery, bind at 1, createChatCompletion.
  fold (refinementPrompt originalQuery w). fold (refinementReply env originalQuery w).
  destruct (refinementReply env originalQuery w) as [content|e] eqn:ER.
  2:{ intros H. injection H as <- <-. rewrite <- ER. now apply RefinementFails. }
  unfold ret at 1, push at 1; cbv beta iota.
  set (rq := refinedQueryOf originalQuery content).
  rewrite <- ER. fold (refinementEvent env originalQuery w).
  unfold bind at 1; cbv beta iota.
  cbn [trace chatCalls fetchCalls events consecutiveFailures].
  set (w1 := mkWorld _ _ _ _ _).
  destruct (performSearch_frame env rq w1) as (rs & n & evs & Hrun & Hn & Hevs).
  assert (Hs : searched env originalQuery w rq rs n evs) by (split; [exact Hrun | now split]).
  unfold tryCatch, bind at 1. rewrite Hrun.
  unfold bind at 1.
  destruct (Js.every isPlaceholder rs) eqn:Emock.
  - unfold incrFailures, getFailures, setFailures, setObservation, appendObservation,
      updateObservation, push, bind, ret, fetched, w1.
    cbn [trace chatCalls fetchCalls events consecutiveFailures].
    rewrite !modifyAt_pushed.
    destruct (2 <=? S (consecutiveFailures w)) eqn:Ecap.
    + cbn [trace chatCalls fetchCalls events consecutiveFailures].
      rewrite !modifyAt_pushed.
      intros H. injection H as <- <-.
      apply Nat.leb_le in Ecap. rewrite <- app_assoc.
      exact (GivesUp env originalQuery w content rs n evs ER Hs Emock Ecap).
    + apply Nat.leb_gt in Ecap.
      rewrite analyzeSearchResults_run.
      cbn [trace chatCalls fetchCalls events consecutiveFailures].
      fold (analysisReply env w rq rs). fold (analysisEvent env w rq rs).
      destruct (analysisReply env w rq rs) as [analysis|e] eqn:EA.
      * pose proof (Analysed env originalQuery w content rs n evs analysis ER Hs) as H.
        unfold judged in H. rewrite Emock in H. cbv zeta in H.
        fold rq in H. revert H.
        destruct (saysEnough (reflection (analysisStepOf rq rs analysis))); intros H;
          cbn [trace chatCalls fetchCalls events consecutiveFailures];
          intros H'; injection H' as <- <-; rewrite <- !app_assoc;
          apply H; solve [now right | exact EA].
      * pose proof (AnalysisFails env originalQuery w content rs n evs e ER Hs) as H.
        unfold judged in H. rewrite Emock in H. cbv zeta in H.
        cbn [trace chatCalls fetchCalls events consecutiveFailures].
        rewrite !modifyAt_pushed.
        fold rq in H. revert H.
        destruct (2 <=? S (S (consecutiveFailures w))); intros H;
          cbn [trace chatCalls fetchCalls events consecutiveFailures];
          rewrite ?modifyAt_pushed;
          intros H'; injection H' as <- <-; rewrite <- !app_assoc;
          apply H; solve [now right | exact EA].
  - unfold incrFailures, getFailures, setFailures, setObservation, appendObservation,
      updateObservation, push, bind, ret, fetched, w1.
    cbn [trace chatCalls fetchCalls events consecutiveFailures].
    rewrite !modifyAt_pushed.
    rewrite analyzeSearchResults_run.
    cbn [trace chatCalls fetchCalls events consecutiveFailures].
    fold (analysisReply env w rq rs). fold (analysisEvent env w rq rs).
    destruct (analysisReply env w rq rs) as [analysis|e] eqn:EA.
    + pose proof (Analysed env originalQuery w content rs n evs analysis ER Hs) as H.
      unfold judged in H. rewrite Emock in H. cbv zeta in H.
      fold rq in H. revert H.
      destruct (saysEnough (reflection (analysisStepOf rq rs analysis))); intros H;
        cbn [trace chatCalls fetchCalls events consecutiveFailures];
        intros H'; injection H' as <- <-; rewrite <- !app_assoc;
        apply H; solve [now left | exact EA].
    + pose proof (AnalysisFails env originalQuery w content rs n evs e ER Hs) as H.
      unfold judged in H. rewrite Emock in H. cbv zeta in H.
      cbn [trace chatCalls fetchCalls events consecutiveFailures].
      rewrite !modifyAt_pushed.
      fold rq in H.
      change (2 <=? 1) with false in *. cbv iota in *.
      intros H'; injection H' as <- <-; rewrite <- !app_assoc.
      apply H; [now left | exact EA].
Qed.

End RoundFacts.

(** ** The loop and the invocation *)

Section LoopFacts.

Variable env : Env.
Variable openai : OpenAI.
Variable originalQuery : string.

Lemma researchRounds_run (n : nat) (w : World) (r : Result unit) (w' : World) :
  researchRounds env openai originalQuery n w = (r, w') -> RoundsRun env originalQuery n w r w'.
Proof.
  revert w. induction n as [|n IH]; intros w; simpl.
  - unfold ret. intros H. injection H as <- <-. constructor.
  - unfold bind.
    destruct (researchRound env openai originalQuery w) as [[[|]|e] w1] eqn:E;
      apply researchRound_run in E.
    + unfold ret. intros H. injection H as <- <-. now apply RoundBreaks.
    + intros H. apply IH in H. now apply RoundContinues with w1.
    + intros H. injection H as <- <-. now apply RoundThrows.
Qed.

End LoopFacts.

Lemma since_app (w w' : World) (evs : list Event) :
  events w' = events w ++ evs -> since w w' = evs.
Proof.
  intros H. unfold since. rewrite H, skipn_app, skipn_all, Nat.sub_diag. reflexivity.
Qed.

Section InvocationFacts.

Variable env : Env.

Lemma generateResearchResponse_run (query : string)
      (initialSearchResults : list SearchResult) (previousContext : string)
      (w : World) (r : Result AgentResponse) (w' : World) :
  generateResearchResponse env query initialSearchResults previousContext w = (r, w') ->
  Invocation env query initialSearchResults previousContext w r w'.
Proof.
  unfold generateResearchResponse, initOpenAI.
  destruct (Js.truthy (OPENAI_API_KEY env)) as [key|] eqn:Hkey.
  2:{ unfold bind, throw. intros H. injection H as <- <-. now apply NoKey. }
  intros H. apply PlanningRuns with key; [exact Hkey|]. revert H.
  unfold bind at 1, ret at 1. unfold bind at 1, newTraceSteps.
  unfold bind at 1, generatePlanningStep, bind at 1, createChatCompletion.
  cbn [trace chatCalls fetchCalls events consecutiveFailures].
  set (prompt := Prompt.planning query initialSearchResults previousContext).
  set (reply := chatCompletions env (chatCalls w) Prompt.planningSystem prompt).
  destruct reply as [content|e] eqn:ER.
  2:{ intros H. injection H as <- <-. rewrite <- ER. now apply PlanningFails. }
  unfold ret at 1. unfold bind at 1, push at 1.
  cbn [trace chatCalls fetchCalls events consecutiveFailures app].
  unfold bind at 1, performIterativeResearch, bind at 1, setFailures at 1.
  cbn [trace chatCalls fetchCalls events consecutiveFailures].
  rewrite <- ER.
  destruct (researchRounds env (mkOpenAI key) query 2 _) as [rr w2] eqn:Eloop.
  apply researchRounds_run in Eloop.
  intros H. apply LoopRuns with content rr w2; [exact ER | exact Eloop |].
  revert H. destruct rr as [[]|e].
  2:{ intros H. injection H as <- <-. constructor. }
  unfold bind at 1, getTraceSteps at 1. unfold bind at 1, generateFinalOutput.
  unfold bind at 1, await.
  destruct (finalPrompt query (trace w2) previousContext) as [p|e] eqn:EP.
  2:{ intros H. injection H as <- <-. now constructor. }
  unfold bind, createChatCompletion, getTraceSteps, ret.
  cbn [trace chatCalls fetchCalls events consecutiveFailures].
  pose proof (Synthesised env query previousContext p w2 EP) as S. cbv zeta in S.
  destruct (chatCompletions env (chatCalls w2) Prompt.finalSystem p);
    intros H; injection H as <- <-; exact S.
Qed.

End InvocationFacts.

(** ** The trace of an invocation *)

Lemma RoundSteps_length (steps : list AgentTraceStep) :
  RoundSteps steps -> length steps <= 2.
Proof. intros []; simpl; lia. Qed.

Lemma concat_rounds_length (rounds : list (list AgentTraceStep)) :
  Forall RoundSteps rounds -> length (concat rounds) <= 2 * length rounds.
Proof.
  induction 1 as [|steps rounds H _ IH]; simpl; [lia|].
  rewrite length_app. apply RoundSteps_length in H. lia.
Qed.

Lemma orElse_nonempty (content : option string) (dflt : string) :
  dflt <> EmptyString -> Js.orElse content dflt <> EmptyString.
Proof.
  intros H. unfold Js.orElse, Js.truthy.
  destruct content as [[|c s]|]; try exact H. discriminate.
Qed.

Section TraceFacts.

Variable env : Env.
Variable query : string.

Lemma RoundRun_trace (w : World) (r : Result Round) (w' : World) :
  RoundRun env query w r w' ->
  match r with
  | Ok _ => exists steps, trace w' = trace w ++ steps /\ RoundSteps steps
  | Throw _ => trace w' = trace w
  end.
Proof.
  intros [e He | content rs n evs rq Hr Hs Hm Hc
          | content rs n evs e rq failures Hr Hs Hc Ha
          | content rs n evs analysis rq analysisStep Hr Hs Hc Ha];
    cbn [trace]; [reflexivity | | |]; eexists; (split; [reflexivity|]); constructor.
Qed.

Lemma RoundsRun_trace (n : nat) (w : World) (r : Result unit) (w' : World) :
  RoundsRun env query n w r w' ->
  exists rounds,
    trace w' = trace w ++ concat rounds
    /\ length rounds <= n
    /\ Forall RoundSteps rounds.
Proof.
  induction 1 as [w | n w w' e H | n w w' H | n w w1 w' r H Hrest IH].
  - exists []. simpl. rewrite app_nil_r. repeat split; [lia | constructor].
  - apply RoundRun_trace in H. exists []. simpl. rewrite app_nil_r.
    repeat split; [exact H | lia | constructor].
  - apply RoundRun_trace in H. destruct H as (steps & Ht & Hs).
    exists [steps]. simpl. rewrite app_nil_r.
    repeat split; [exact Ht | lia | now constructor].
  - apply RoundRun_trace in H. destruct H as (steps & Ht & Hs).
    destruct IH as (rounds & Ht' & Hn & Hall).
    exists (steps :: rounds). simpl. rewrite Ht', Ht, <- app_assoc.
    repeat split; [lia | now constructor].
Qed.

(** A response is returned only by a synthesis call that replied. *)
Lemma Synthesis_returns (previousContext : string) (rr : Result unit) (w2 : World)
      (response : AgentResponse) (w' : World) :
  Synthesis env query previousContext rr w2 (Ok response) w' ->
  exists answer,
    response = mkAgentResponse
                 (trace w2)
                 (Js.orElse answer "Unable to generate a response based on the research.")
    /\ rr = Ok tt.
Proof.
  intros H. inversion H; subst.
  match goal with
  | E : match ?reply with _ => _ end = Ok _ |- _ =>
      destruct reply as [answer|e]; [injection E as <- | discriminate]
  end.
  now exists answer.
Qed.

(** The trace a returned response carries: the planning step, then the
    steps of at most two rounds. *)
Lemma Invocation_trace (initialSearchResults : list SearchResult)
      (previousContext : string) (w : World) (response : AgentResponse) (w' : World) :
  Invocation env query initialSearchResults previousContext w (Ok response) w' ->
  exists content rounds,
    traceSteps response = planningStepOf query content :: concat rounds
    /\ length rounds <= 2
    /\ Forall RoundSteps rounds
    /\ finalOutput response <> EmptyString.
Proof.
  intros H. inversion H as [|key r w0 Hkey HP]; subst.
  inversion HP as [|content rr w2 r w0 prompt reply ER Hloop HS]; subst.
  apply RoundsRun_trace in Hloop. destruct Hloop as (rounds & Ht & Hn & Hall).
  cbn [trace] in Ht.
  apply Synthesis_returns in HS. destruct HS as (answer & -> & _).
  cbn [traceSteps finalOutput].
  exists content, rounds. rewrite Ht.
  repeat split; try assumption. now apply orElse_nonempty.
Qed.

End TraceFacts.

(** C1. For every query (and every environment, initial batch and prior
    context), an invocation that returns normally yields a response whose
    trace has the planning step as its first element, hence at least one
    step, and whose final output is not the empty string. *)
Theorem response_has_plan_and_output (env : Env) (query : string)
        (initialSearchResults : list SearchResult) (previousContext : string)
        (w w' : World) (response : AgentResponse) :
  generateResearchResponse env query initialSearchResults previousContext w
  = (Ok response, w') ->
  1 <= length (traceSteps response)
  /\ (exists content, hd_error (traceSteps response) = Some (planningStepOf query content))
  /\ finalOutput response <> EmptyString.
Proof.
  intros H. apply generateResearchResponse_run in H.
  apply Invocation_trace in H. destruct H as (content & rounds & Ht & _ & _ & Hout).
  rewrite Ht. simpl. repeat split; [lia | now exists content | exact Hout].
Qed.

Lemma response_has_plan_and_output_witness :
  exists response w',
    generateResearchResponse Examples.offline Examples.question
      (generateMockResults Examples.question) EmptyString World0 = (Ok response, w')
    /\ 1 <= length (traceSteps response)
    /\ (exists content,
           hd_error (traceSteps response) = Some (planningStepOf Examples.question content))
    /\ finalOutput response <> EmptyString.
Proof.
  match eval vm_compute in
        (generateResearchResponse Examples.offline Examples.question
           (generateMockResults Examples.question) EmptyString World0)
  with
  | (Ok ?response, ?w') =>
      assert (Hrun : generateResearchResponse Examples.offline Examples.question
                       (generateMockResults Examples.question) EmptyString World0
                     = (Ok response, w')) by (vm_compute; reflexivity);
      exists response, w'; split; [exact Hrun|];
      exact (response_has_plan_and_output _ _ _ _ _ _ _ Hrun)
  end.
Defined.

(** C10. The trace of a response that is returned has at most 5 steps: the
    planning step, followed, for each of at most 2 rounds, by the search
    step of the round and then possibly by its analysis step. *)
Theorem response_trace_shape (env : Env) (query : string)
        (initialSearchResults : list SearchResult) (previousContext : string)
        (w w' : World) (response : AgentResponse) :
  generateResearchResponse env query initialSearchResults previousContext w
  = (Ok response, w') ->
  length (traceSteps response) <= 5
  /\ exists content rounds,
       traceSteps response = planningStepOf query content :: concat rounds
       /\ length rounds <= 2
       /\ Forall RoundSteps rounds.
Proof.
  intros H. apply generateResearchResponse_run in H.
  apply Invocation_trace in H. destruct H as (content & rounds & Ht & Hn & Hall & _).
  split; [|now exists content, rounds].
  rewrite Ht. simpl. apply concat_rounds_length in Hall. lia.
Qed.

Lemma response_trace_shape_witness :
  exists response w',
    generateResearchResponse Examples.researching Examples.question
      Examples.realResults EmptyString World0 = (Ok response, w')
    /\ length (traceSteps response) <= 5
    /\ exists content rounds,
         traceSteps response = planningStepOf Examples.question content :: concat rounds
         /\ length rounds <= 2
         /\ Forall RoundSteps rounds.
Proof.
  match eval vm_compute in
        (generateResearchResponse Examples.researching Examples.question
           Examples.realResults EmptyString World0)
  with
  | (Ok ?response, ?w') =>
      assert (Hrun : generateResearchResponse Examples.researching Examples.question
                       Examples.realResults EmptyString World0
                     = (Ok response, w')) by (vm_compute; reflexivity);
      exists response, w'; split; [exact Hrun|];
      exact (response_trace_shape _ _ _ _ _ _ _ Hrun)
  end.
Defined.

(** ** The calls of an invocation *)

Lemma countChat_app (system : string) (evs evs' : list Event) :
  countChat system (evs ++ evs') = countChat system evs + countChat system evs'.
Proof. unfold countChat. now rewrite filter_app, length_app. Qed.

Lemma countChat_chat (system s u : string) (out : Completion) (evs : list Event) :
  countChat system (EvChat s u out :: evs)
  = (if String.eqb s system then 1 else 0) + countChat system evs.
Proof. unfold countChat. simpl. now destruct (String.eqb s system). Qed.

Lemma countChat_no_chat (system : string) (evs : list Event) :
  forallb (fun ev => negb (isChat ev)) evs = true -> countChat system evs = 0.
Proof.
  unfold countChat. induction evs as [|[s u o|k q o|ms] evs IH]; simpl; intros H;
    try discriminate; auto.
Qed.

Section CallFacts.

Variable env : Env.
Variable query : string.

Lemma RoundRun_calls (w : World) (r : Result Round) (w' : World) :
  RoundRun env query w r w' -> roundCalls w w' 1.
Proof.
  intros [e He | content rs n evs rq Hr [_ [Hn Hevs]] Hm Hc
          | content rs n evs e rq failures Hr [_ [Hn Hevs]] Hc Ha
          | content rs n evs analysis rq analysisStep Hr [_ [Hn Hevs]] Hc Ha];
    cbn [events fetchCalls]; eexists; (split; [reflexivity|]);
    unfold refinementEvent, analysisEvent;
    rewrite ?countChat_chat, ?countChat_app, ?countChat_chat,
      ?(countChat_no_chat _ evs Hevs);
    cbn [countChat filter length];
    repeat split; cbn [fetchCalls]; systems; lia.
Qed.

Lemma RoundsRun_calls (n : nat) (w : World) (r : Result unit) (w' : World) :
  RoundsRun env query n w r w' -> roundCalls w w' n.
Proof.
  induction 1 as [w | n w w' e H | n w w' H | n w w1 w' r H Hrest IH].
  - exists []. rewrite app_nil_r. cbn. repeat split; lia.
  - apply RoundRun_calls in H. destruct H as (evs & ? & ? & ? & ? & ? & ?).
    exists evs. repeat split; try assumption; lia.
  - apply RoundRun_calls in H. destruct H as (evs & ? & ? & ? & ? & ? & ?).
    exists evs. repeat split; try assumption; lia.
  - apply RoundRun_calls in H. destruct H as (evs & E1 & ? & ? & ? & ? & ?).
    destruct IH as (evs' & E2 & ? & ? & ? & ? & ?).
    exists (evs ++ evs'). rewrite E2, E1, <- app_assoc, !countChat_app.
    repeat split; lia.
Qed.

(** The calls of a whole invocation, however it ends. *)
Lemma Invocation_calls (initialSearchResults : list SearchResult)
      (previousContext : string) (w : World) (r : Result AgentResponse) (w' : World) :
  Invocation env query initialSearchResults previousContext w r w' ->
  exists evs,
    events w' = events w ++ evs
    /\ countChat Prompt.refinementSystem evs <= 2
    /\ countChat Prompt.analysisSystem evs <= 2
    /\ fetchCalls w' <= 6 + fetchCalls w.
Proof.
  intros [Hkey | key r0 w0 Hkey HP].
  - exists []. rewrite app_nil_r. cbn. repeat split; lia.
  - destruct HP as [e prompt reply ER | content rr w2 r1 w1 prompt reply ER Hloop HS].
    + eexists. cbn [events fetchCalls]. split; [reflexivity|].
      rewrite !countChat_chat. systems. cbn. repeat split; lia.
    + apply RoundsRun_calls in Hloop.
      destruct Hloop as (evs & E & Hr & Ha & _ & _ & Hf).
      cbn [events fetchCalls] in E, Hf.
      destruct HS as [e w2 | e w2 EP | p w2 reply' EP].
      1,2: exists (EvChat Prompt.planningSystem prompt reply :: evs);
        rewrite E, <- app_assoc, countChat_chat, countChat_chat; systems;
        cbn [Nat.add]; repeat split; lia.
      exists (EvChat Prompt.planningSystem prompt reply :: evs
              ++ [EvChat Prompt.finalSystem p reply']).
      cbn [events fetchCalls].
      rewrite E, <- !app_assoc, !countChat_chat, !countChat_app, !countChat_chat.
      systems. cbn [countChat filter length Nat.add]. repeat split; lia.
Qed.

End CallFacts.

(** C2. In every invocation, whatever the model and the provider answer
    and however the invocation ends, the loop runs at most 2 rounds: at
    most 2 refined queries are generated, at most 2 analyses are asked,
    and the searches of the loop make at most 2 times 3 requests. *)
Theorem at_most_two_rounds (env : Env) (query : string)
        (initialSearchResults : list SearchResult) (previousContext : string)
        (w : World) :
  let w' := snd (generateResearchResponse env query initialSearchResults previousContext w) in
  countChat Prompt.refinementSystem (since w w') <= 2
  /\ countChat Prompt.analysisSystem (since w w') <= 2
  /\ fetchCalls w' <= 6 + fetchCalls w.
Proof.
  intros w'. subst w'.
  destruct (generateResearchResponse env query initialSearchResults previousContext w)
    as [r w'] eqn:E.
  apply generateResearchResponse_run, Invocation_calls in E.
  destruct E as (evs & E & Hr & Ha & Hf).
  cbn [snd]. now rewrite (since_app w w' evs E).
Qed.

(** ** Failures of the model calls *)

Lemma uncaught_not_analysis (s : string) : In s uncaught -> s <> Prompt.analysisSystem.
Proof.
  intros [<-|[<-|[<-|[]]]] H; apply String.eqb_eq in H; vm_compute in H; discriminate.
Qed.

Lemma clean_nil : clean [].
Proof. intros s u e []. Qed.

Lemma clean_app (evs evs' : list Event) : clean evs -> clean evs' -> clean (evs ++ evs').
Proof.
  intros H H' s u e Hin. apply in_app_or in Hin. destruct Hin; eauto.
Qed.

Lemma clean_no_chat (evs : list Event) :
  forallb (fun ev => negb (isChat ev)) evs = true -> clean evs.
Proof.
  intros H s u e Hin. rewrite forallb_forall in H. apply H in Hin. discriminate.
Qed.

Lemma clean_replied (s u : string) (out : Completion) (content : option string) :
  out = Replied content -> clean [EvChat s u out].
Proof.
  intros -> s' u' e [H|[]]. discriminate.
Qed.

Lemma clean_analysis (u : string) (out : Completion) : clean [EvChat Prompt.analysisSystem u out].
Proof.
  intros s' u' e [H|[]]. now injection H as <- _ _.
Qed.

Lemma abortedBy_after {A : Type} (r : Result A) (evs evs' : list Event) :
  clean evs -> abortedBy r evs' -> abortedBy r (evs ++ evs').
Proof.
  intros Hc. destruct r as [a|e]; simpl.
  - now apply clean_app.
  - intros (before & s & u & -> & Hb & Hs).
    exists (evs ++ before), s, u. rewrite app_assoc.
    repeat split; [now apply clean_app | exact Hs].
Qed.

Lemma abortedBy_failed {A : Type} (s u : string) (out : Completion) (e : JsError) :
  out = Failed e -> In s uncaught -> @abortedBy A (Throw e) [EvChat s u out].
Proof.
  intros -> Hs. exists [], s, u. repeat split; [apply clean_nil | exact Hs].
Qed.

Lemma renderSteps_defined (i : nat) (steps : list AgentTraceStep) :
  renderSteps i (map Some steps) = Ok (Js.mapiFrom i Prompt.step steps).
Proof.
  revert i. induction steps as [|s steps IH]; intros i; simpl; [reflexivity|].
  now rewrite IH.
Qed.

(** On a trace that is not empty the final prompt is defined: it is the
    rendering of the first step and of the selected analysis steps. *)
Lemma finalPrompt_defined (query : string) (first : AgentTraceStep)
      (rest : list AgentTraceStep) (previousContext : string) :
  finalPrompt query (first :: rest) previousContext =
  Ok (Prompt.final query
        (Js.join (Js.nl ++ Js.nl)
           (Js.mapi Prompt.step
              (first :: Js.sliceLast 2 (filter isAnalysis (first :: rest)))))
        previousContext).
Proof.
  unfold finalPrompt, essentialSteps, Js.mapi.
  change (nth_error (first :: rest) 0) with (Some first).
  change (Some first :: map Some ?l) with (map Some (first :: l)).
  now rewrite renderSteps_defined.
Qed.

Section FailureFacts.

Variable env : Env.
Variable query : string.

Lemma RoundRun_failures (w : World) (r : Result Round) (w' : World) :
  RoundRun env query w r w' ->
  exists evs, events w' = events w ++ evs /\ abortedBy r evs.
Proof.
  intros [e He | content rs n evs rq Hr [_ [Hn Hevs]] Hm Hc
          | content rs n evs e rq failures Hr [_ [Hn Hevs]] Hc Ha
          | content rs n evs analysis rq analysisStep Hr [_ [Hn Hevs]] Hc Ha];
    cbn [events]; eexists; (split; [reflexivity|]).
  - apply abortedBy_failed; [exact He | simpl; auto].
  - apply (clean_app [_]); [exact (clean_replied _ _ _ _ Hr) | now apply clean_no_chat].
  - apply (clean_app [_]); [exact (clean_replied _ _ _ _ Hr)|].
    apply clean_app; [now apply clean_no_chat | apply clean_analysis].
  - apply (clean_app [_]); [exact (clean_replied _ _ _ _ Hr)|].
    apply clean_app; [now apply clean_no_chat | apply clean_analysis].
Qed.

Lemma RoundsRun_failures (n : nat) (w : World) (r : Result unit) (w' : World) :
  RoundsRun env query n w r w' ->
  exists evs, events w' = events w ++ evs /\ abortedBy r evs.
Proof.
  induction 1 as [w | n w w' e H | n w w' H | n w w1 w' r H Hrest IH].
  - exists []. rewrite app_nil_r. split; [reflexivity | apply clean_nil].
  - now apply RoundRun_failures in H.
  - now apply RoundRun_failures in H.
  - apply RoundRun_failures in H. destruct H as (evs & E & Hc).
    destruct IH as (evs' & E' & Ha).
    exists (evs ++ evs'). rewrite E', E, <- app_assoc.
    split; [reflexivity | now apply abortedBy_after].
Qed.

Lemma RoundsRun_keeps_plan (n : nat) (w : World) (r : Result unit) (w' : World) :
  RoundsRun env query n w r w' -> trace w <> [] -> trace w' <> [].
Proof.
  intros H Hne. apply RoundsRun_trace in H. destruct H as (rounds & -> & _).
  destruct (trace w); [contradiction | discriminate].
Qed.

(** An invocation that has a key throws exactly when a planning,
    refinement or synthesis call fails, and throws that failure. *)
Lemma Planned_failures (initialSearchResults : list SearchResult)
      (previousContext : string) (w : World) (r : Result AgentResponse) (w' : World) :
  Planned env query initialSearchResults previousContext w r w' ->
  exists evs, events w' = events w ++ evs /\ abortedBy r evs.
Proof.
  intros [e prompt reply ER | content rr w2 r1 w1 prompt reply ER Hloop HS].
  - eexists. cbn [events]. split; [reflexivity|].
    apply abortedBy_failed; [exact ER | simpl; auto].
  - pose proof (RoundsRun_keeps_plan _ _ _ _ Hloop) as Hne.
    apply RoundsRun_failures in Hloop. destruct Hloop as (evs & E & Ha).
    cbn [events trace] in E, Hne.
    pose proof (clean_replied Prompt.planningSystem prompt reply content ER) as Hplan.
    destruct HS as [e w2 | e w2 EP | p w2 reply' EP].
    + exists (EvChat Prompt.planningSystem prompt reply :: evs).
      rewrite E, <- app_assoc. split; [reflexivity|].
      now apply (abortedBy_after _ [_]).
    + exfalso. destruct (trace w2) as [|first rest]; [now apply Hne|].
      rewrite finalPrompt_defined in EP. discriminate.
    + exists (EvChat Prompt.planningSystem prompt reply :: evs
              ++ [EvChat Prompt.finalSystem p reply']).
      cbn [events]. rewrite E, <- !app_assoc. split; [reflexivity|].
      apply (abortedBy_after _ [_]); [exact Hplan|].
      apply abortedBy_after; [exact Ha|].
      destruct reply' as [answer|e] eqn:ER'.
      * exact (clean_replied _ _ _ _ eq_refl).
      * apply abortedBy_failed; [reflexivity | simpl; auto].
Qed.

(** When every model call replies, nothing else makes an invocation throw,
    whatever the search provider does. *)
Lemma RoundsRun_returns (n : nat) (w : World) (r : Result unit) (w' : World) :
  (forall k s u, exists content, chatCompletions env k s u = Replied content) ->
  RoundsRun env query n w r w' -> r = Ok tt.
Proof.
  intros Hmodel. induction 1 as [w | n w w' e H | n w w' H | n w w1 w' r H Hrest IH];
    try reflexivity; [|exact IH].
  inversion H as [e' He | | | ]; subst.
  destruct (Hmodel (chatCalls w) Prompt.refinementSystem (refinementPrompt query w))
    as [content Hc].
  unfold refinementReply in He. rewrite Hc in He. discriminate.
Qed.

Lemma Planned_returns (initialSearchResults : list SearchResult)
      (previousContext : string) (w : World) (r : Result AgentResponse) (w' : World) :
  Planned env query initialSearchResults previousContext w r w' ->
  (forall k s u, exists content, chatCompletions env k s u = Replied content) ->
  exists response, r = Ok response.
Proof.
  intros [e prompt reply ER | content rr w2 r1 w1 prompt reply ER Hloop HS] Hmodel.
  - destruct (Hmodel (chatCalls w) Prompt.planningSystem prompt) as [c Hc].
    unfold reply in ER. rewrite Hc in ER. discriminate.
  - pose proof (RoundsRun_keeps_plan _ _ _ _ Hloop) as Hne.
    pose proof (RoundsRun_returns _ _ _ _ Hmodel Hloop) as ->.
    cbn [trace] in Hne. specialize (Hne ltac:(discriminate)).
    inversion HS as [ | e w3 EP | p w3 reply' EP ]; subst.
    + exfalso. destruct (trace w1) as [|first rest]; [now apply Hne|].
      rewrite finalPrompt_defined in EP. discriminate.
    + destruct (Hmodel (chatCalls w2) Prompt.finalSystem p) as [answer Hanswer].
      unfold reply'. rewrite Hanswer. eexists. reflexivity.
Qed.

End FailureFacts.

(** C5, the amended claim. A failure raised by the planning, the
    query-refinement or the synthesis model call is not recovered: the
    invocation throws it to its caller. A failure raised by the
    result-analysis call is caught inside its round and does not abort the
    invocation. Search failures never abort it: an invocation throws only
    when the OpenAI key is missing or when one of those three kinds of
    model call failed, and then it throws that failure; with a key and a
    model that answers every call it returns a response, whatever the
    search provider does. *)
Theorem model_failures_abort (env : Env) (query : string)
        (initialSearchResults : list SearchResult) (previousContext : string)
        (w : World) :
  let run := generateResearchResponse env query initialSearchResults previousContext w in
  (forall s u e,
      In (EvChat s u (Failed e)) (since w (snd run)) ->
      s <> Prompt.analysisSystem ->
      fst run = Throw e)
  /\ (forall e,
         fst run = Throw e ->
         (Js.truthy (OPENAI_API_KEY env) = None /\ e = missingKey)
         \/ exists s u,
              In (EvChat s u (Failed e)) (since w (snd run)) /\ In s uncaught)
  /\ (Js.truthy (OPENAI_API_KEY env) <> None ->
      (forall n s u, exists content, chatCompletions env n s u = Replied content) ->
      exists response, fst run = Ok response).
Proof.
  intros run. subst run.
  destruct (generateResearchResponse env query initialSearchResults previousContext w)
    as [r w'] eqn:E.
  apply generateResearchResponse_run in E. cbn [fst snd].
  destruct E as [Hkey | key r w' Hkey HP].
  - split; [|split].
    + intros s u e Hin. unfold since in Hin. rewrite skipn_all in Hin. destruct Hin.
    + intros e He. injection He as <-. now left.
    + intros Hsome. contradiction.
  - pose proof (Planned_returns _ _ _ _ _ _ _ HP) as Hreturns.
    apply Planned_failures in HP. destruct HP as (evs & E & Ha).
    rewrite (since_app w w' evs E). split; [|split; [|intros _; exact Hreturns]].
    + intros s u e Hin Hs. destruct r as [response|e']; simpl in Ha.
      * now apply Ha in Hin.
      * destruct Ha as (before & s' & u' & -> & Hb & Hs').
        apply in_app_or in Hin. destruct Hin as [Hin|[Hin|[]]].
        -- now apply Hb in Hin.
        -- now injection Hin as _ _ ->.
    + intros e ->. right. simpl in Ha.
      destruct Ha as (before & s & u & -> & _ & Hs).
      exists s, u. split; [|exact Hs]. apply in_or_app. right. now left.
Qed.

Lemma has_failed_call (evs : list Event) :
  existsb (fun ev => match ev with EvChat _ _ (Failed _) => true | _ => false end) evs = true ->
  exists s u e, In (EvChat s u (Failed e)) evs.
Proof.
  intros H. apply existsb_exists in H. destruct H as ([s u [c|e]|k q o|ms] & Hin & Hev);
    try discriminate.
  now exists s, u, e.
Qed.

(** C5, counterexample. The provider gives real results and the analysis
    calls of the model fail: the failure is recorded, and the invocation
    returns a response. *)
Lemma analysis_failure_is_caught :
  ~ everyModelFailureAborts Examples.flaky Examples.question Examples.realResults
      EmptyString World0.
Proof.
  intros H.
  destruct (has_failed_call
              (since World0
                 (snd (generateResearchResponse Examples.flaky Examples.question
                         Examples.realResults EmptyString World0))))
    as (s & u & e & Hin); [vm_compute; reflexivity|].
  apply H in Hin. vm_compute in Hin. discriminate.
Qed.

(** ** The consecutive-failure counter *)




(** ** The synthesis prompt *)



(** The filter of the synthesis keeps every step that the analysis of a
    round returns, and none of the search steps. *)
Lemma analysis_steps_pass_the_filter (rq : string) (rs : list SearchResult)
      (content : option string) :
  isAnalysis (analysisStepOf rq rs content) = true.
Proof.
  unfold isAnalysis, analysisStepOf. cbn [action reflection].
  change (Js.tpl ["Analyzing results from query: "; Js.dq; rq; Js.dq])
    with ("Analyzing results" ++ (" from query: " ++ Js.tpl [Js.dq; rq; Js.dq]))%string.
  rewrite includes_at_start.
  unfold Js.orElse, Js.truthy. now destruct content as [[|c r]|].
Qed.

Lemma search_steps_fail_the_filter (rq obs : string) :
  isAnalysis (withObservation (newSearchStep rq) obs) = false.
Proof. unfold isAnalysis. cbn [reflection withObservation newSearchStep]. apply andb_false_r. Qed.

(** After two full rounds the trace has five steps, and the synthesis reads
    three of them: the plan and the two analyses. *)
Lemma essentialSteps_after_two_rounds (plan : AgentTraceStep)
      (rq1 obs1 rq2 obs2 : string) (rs1 rs2 : list SearchResult)
      (content1 content2 : option string) :
  isAnalysis plan = false ->
  essentialSteps [ plan;
                   withObservation (newSearchStep rq1) obs1;
                   analysisStepOf rq1 rs1 content1;
                   withObservation (newSearchStep rq2) obs2;
                   analysisStepOf rq2 rs2 content2 ]
  = map Some [plan; analysisStepOf rq1 rs1 content1; analysisStepOf rq2 rs2 content2].
Proof.
  intros Hplan. unfold essentialSteps. cbn [filter].
  rewrite Hplan, !analysis_steps_pass_the_filter, !search_steps_fail_the_filter.
  reflexivity.
Qed.

(** ** The scenario of an unreachable provider *)

Lemma mock_results_are_placeholders (query : string) :
  Js.every isPlaceholder (generateMockResults query) = true.
Proof. reflexivity. Qed.

Lemma fetched_nothing (w : World) : fetched w 0 [] = w.
Proof. destruct w. unfold fetched. simpl. now rewrite app_nil_r. Qed.

Section Unreachable.

Variable env : Env.
Variable key : string.

Hypothesis has_key : Js.truthy (OPENAI_API_KEY env) = Some key.
Hypothesis provider_down : forall n k q, exists e, serper env n k q = Throw e.
Hypothesis model_replies : forall n s u, exists c, chatCompletions env n s u = Replied c.

Lemma attempt_raises (n : nat) (k q : string) : attemptOf (serper env n k q) = Raised.
Proof. destruct (provider_down n k q) as [e ->]. reflexivity. Qed.

(** Every search gives the synthetic batch, of the query or of the query
    without its quotes. *)
Lemma performSearch_offline (query : string) (w : World) :
  exists q n evs,
    performSearch env query w = (Ok (generateMockResults q), fetched w n evs)
    /\ (q = query \/ q = Js.stripQuotes query).
Proof.
  destruct (Js.truthy (SERPER_API_KEY env)) as [k|] eqn:Hk.
  - rewrite (performSearch_run env query k w Hk), !attempt_raises.
    eexists _, _, _. split; [reflexivity | now right].
  - unfold performSearch. rewrite Hk. exists query, 0, [].
    rewrite fetched_nothing. split; [reflexivity | now left].
Qed.

Lemma searched_offline (query : string) (w : World) (rq : string)
      (rs : list SearchResult) (n : nat) (evs : list Event) :
  searched env query w rq rs n evs -> exists q, rs = generateMockResults q.
Proof.
  intros [Hrun _].
  destruct (performSearch_offline rq
              (mkWorld (S (chatCalls w)) (fetchCalls w)
                       (events w ++ [refinementEvent env query w])
                       (trace w ++ [newSearchStep rq]) (consecutiveFailures w)))
    as (q & n' & evs' & Hrun' & _).
  rewrite Hrun in Hrun'. injection Hrun' as -> _. now exists q.
Qed.

(** A round of the scenario: the first failure is followed by the
    analysis of the synthetic batch, the second one ends the loop. *)
Lemma RoundRun_offline (query : string) (w : World) (r : Result Round) (w' : World) :
  RoundRun env query w r w' ->
  exists rq q,
    (consecutiveFailures w = 0
     /\ exists a,
          r = Ok (if saysEnough (reflection (analysisStepOf rq (generateMockResults q) a))
                  then Break else Next)
          /\ trace w' = trace w ++
               [withObservation (newSearchStep rq) placeholdersObservation;
                analysisStepOf rq (generateMockResults q) a]
          /\ consecutiveFailures w' = 1)
    \/ (1 <= consecutiveFailures w
        /\ r = Ok Break
        /\ trace w' = trace w ++
             [withObservation (newSearchStep rq) (placeholdersObservation ++ failureNote)]
        /\ consecutiveFailures w' = S (consecutiveFailures w)).
Proof.
  intros [e He | content rs n evs rq Hr Hs Hm Hc
          | content rs n evs e rq failures Hr Hs Hc Ha
          | content rs n evs analysis rq analysisStep Hr Hs Hc Ha].
  - unfold refinementReply in He.
    destruct (model_replies (chatCalls w) Prompt.refinementSystem
                            (refinementPrompt query w)) as [c Hc].
    rewrite Hc in He. discriminate.
  - destruct (searched_offline _ _ _ _ _ _ Hs) as [q ->].
    exists rq, q. right. cbn [trace consecutiveFailures].
    repeat split; lia.
  - unfold analysisReply in Ha.
    destruct (model_replies (S (chatCalls w)) Prompt.analysisSystem
                            (analysisPrompt rq rs)) as [c Hc'].
    rewrite Hc' in Ha. discriminate.
  - destruct (searched_offline _ _ _ _ _ _ Hs) as [q ->].
    rewrite mock_results_are_placeholders in Hc.
    destruct Hc as [F|Hc]; [discriminate|].
    exists rq, q. left. split; [lia|]. exists analysis.
    cbn [trace consecutiveFailures]. unfold judged.
    rewrite mock_results_are_placeholders.
    repeat split. f_equal. lia.
Qed.

(** The two rounds of the scenario. *)
Lemma RoundsRun_offline (query : string) (plan : AgentTraceStep) (w : World)
      (r : Result unit) (w' : World) :
  trace w = [plan] -> consecutiveFailures w = 0 ->
  RoundsRun env query 2 w r w' ->
  r = Ok tt
  /\ exists rq1 q1 a1,
       let searched1 := withObservation (newSearchStep rq1) placeholdersObservation in
       let analysed1 := analysisStepOf rq1 (generateMockResults q1) a1 in
       (saysEnough (reflection analysed1) = true
        /\ trace w' = [plan; searched1; analysed1]
        /\ consecutiveFailures w' = 1)
       \/ (saysEnough (reflection analysed1) = false
           /\ (exists rq2,
                  trace w' = [plan; searched1; analysed1;
                              withObservation (newSearchStep rq2)
                                (placeholdersObservation ++ failureNote)])
           /\ consecutiveFailures w' = 2).
Proof.
  intros Ht Hc H.
  inversion H as [ | n0 w0 w0' e H1 | n0 w0 w0' H1 | n0 w0 w1 w0' r0 H1 H2 ]; subst;
    apply RoundRun_offline in H1;
    destruct H1 as (rq1 & q1 & [(_ & a1 & Hr & Ht1 & Hc1) | (F & _)]); try lia;
    try discriminate.
  - (* the first round ended the loop *)
    split; [reflexivity|]. exists rq1, q1, a1. cbv zeta. left.
    rewrite Ht in Ht1.
    destruct (saysEnough _); [|discriminate]. now repeat split.
  - (* the first round went on *)
    assert (Hsays : saysEnough (reflection (analysisStepOf rq1 (generateMockResults q1) a1))
                    = false) by (destruct (saysEnough _); [discriminate | reflexivity]).
    rewrite Ht in Ht1.
    inversion H2 as [ | n1 v1 v1' e H3 | n1 v1 v1' H3 | n1 v1 v2 v1' r1 H3 H4 ]; subst;
      apply RoundRun_offline in H3;
      destruct H3 as (rq2 & q2 & [(F & _) | (_ & Hr2 & Ht2 & Hc2)]); try lia;
      try discriminate.
    split; [reflexivity|]. exists rq1, q1, a1. cbv zeta. right.
    split; [exact Hsays|]. split; [|lia].
    exists rq2. rewrite Ht2, Ht1. reflexivity.
Qed.

End Unreachable.

(** C4, the amended claim. For the query best electric cars 2024, when
    the search provider rejects every request (and the model answers every
    call), the request completes on synthetic results only, for every
    chat id that the store does not resolve to an inherited property: the
    plan is made from the synthetic batch of the query, and each round of
    the loop searches in vain. The initial search is not counted: the
    count of consecutive failures is 1 after round 1, whose analysis is
    still asked, on the synthetic batch. When that analysis carries a
    sufficiency marker the loop halts after round 1, with the count at 1;
    otherwise round 2 runs, the count reaches 2 there, and the loop halts
    with the note in the observation of the second search step. In both
    cases a final output is produced. *)
Theorem unreachable_provider_scenario (env : Env) (sys : ChatStore.Sys)
        (chatId key : string) (sv : Ask.Server) :
  Js.truthy (OPENAI_API_KEY env) = Some key ->
  (forall n k q, exists e, serper env n k q = Throw e) ->
  (forall n s u, exists c, chatCompletions env n s u = Replied c) ->
  ChatStore.getChat chatId (Ask.store sv) <> ChatStore.Inherited ->
  exists response sv' context plan rq1 q1 a1,
    let query := "best electric cars 2024" in
    let planned := planningStepOf query plan in
    let searched1 := withObservation (newSearchStep rq1) placeholdersObservation in
    let analysed1 := analysisStepOf rq1 (generateMockResults q1) a1 in
    Ask.processQuery env sys query chatId sv = (Ok (chatId, response), sv')
    /\ Ask.conversationContext chatId (Ask.store sv) = Ok context
    /\ finalOutput response <> EmptyString
    /\ (exists reply,
           In (EvChat Prompt.planningSystem
                      (Prompt.planning query (generateMockResults query) context) reply)
              (since (Ask.world sv) (Ask.world sv')))
    /\ ((saysEnough (reflection analysed1) = true
         /\ traceSteps response = [planned; searched1; analysed1]
         /\ consecutiveFailures (Ask.world sv') = 1)
        \/ (saysEnough (reflection analysed1) = false
            /\ (exists rq2,
                   traceSteps response =
                   [planned; searched1; analysed1;
                    withObservation (newSearchStep rq2)
                      (placeholdersObservation ++ failureNote)])
            /\ consecutiveFailures (Ask.world sv') = 2)).
Proof.
  intros Hkey Hdown Hmodel Hown. cbv zeta.
  set (query := "best electric cars 2024").
  assert (Hstore : exists context,
             Ask.conversationContext chatId (Ask.store sv) = Ok context
             /\ forall response,
                  fst (ChatStore.addAgentResponseToChat sys chatId response (Ask.store sv))
                  = Ok tt).
  { unfold Ask.conversationContext, ChatStore.addAgentResponseToChat.
    unfold ChatStore.getChat in *.
    destruct (ChatStore.lookup chatId (Ask.store sv)) as [chat| |];
      [|contradiction|]; eexists; split; reflexivity. }
  destruct Hstore as (context & Hcontext & Hadd).
  unfold Ask.processQuery. rewrite Hcontext.
  destruct (performSearch_offline env Hdown query (Ask.world sv))
    as (q0 & n0 & evs0 & Hsearch & Hq0).
  assert (Eq0 : q0 = query) by (destruct Hq0 as [->| ->]; reflexivity).
  rewrite Eq0 in Hsearch. rewrite Hsearch.
  destruct (generateResearchResponse env query (generateMockResults query) context
              (fetched (Ask.world sv) n0 evs0)) as [r w'] eqn:Erun.
  apply generateResearchResponse_run in Erun.
  destruct Erun as [Hno | key' r w' _ HP]; [congruence|].
  destruct HP as [e prompt reply ER | content rr w2 r w' prompt reply ER Hloop HS].
  { destruct (Hmodel (chatCalls (fetched (Ask.world sv) n0 evs0))
                Prompt.planningSystem prompt)
      as [c Hc]. unfold reply in ER. rewrite Hc in ER. discriminate. }
  pose proof (RoundsRun_calls _ _ _ _ _ _ Hloop) as (evs & Eevs & _).
  apply (RoundsRun_offline env Hdown Hmodel query (planningStepOf query content))
    in Hloop; [|reflexivity|reflexivity].
  destruct Hloop as (-> & rq1 & q1 & a1 & Hshape).
  cbn [events fetched] in Eevs.
  inversion HS as [ | e w3 EP | p w3 reply' EP ]; subst.
  { exfalso. destruct Hshape as [(_ & Ht & _) | (_ & (rq2 & Ht) & _)];
      rewrite Ht, finalPrompt_defined in EP; discriminate. }
  destruct (Hmodel (chatCalls w2) Prompt.finalSystem p) as [answer Hanswer].
  unfold reply' in *. rewrite Hanswer.
  match goal with
  | |- context [ChatStore.addAgentResponseToChat sys chatId ?response (Ask.store sv)] =>
      specialize (Hadd response);
      destruct (ChatStore.addAgentResponseToChat sys chatId response (Ask.store sv))
        as [[[]|e] st']; cbn [fst] in Hadd; [|discriminate]
  end.
  eexists _, _, context, content, rq1, q1, a1.
  split; [reflexivity|]. split; [reflexivity|].
  cbn [finalOutput traceSteps consecutiveFailures Ask.world].
  split; [now apply orElse_nonempty|].
  split; [|exact Hshape].
  exists reply. unfold since. cbn [events]. rewrite Eevs, <- !app_assoc.
  rewrite skipn_app, skipn_all, Nat.sub_diag. cbn [skipn app].
  apply in_or_app. right. now left.
Qed.

Lemma unreachable_provider_scenario_witness :
  exists response sv' context plan rq1 q1 a1,
    Ask.processQuery Examples.offline Chats.counting "best electric cars 2024"
      "chat-1" (Ask.mkServer World0 ChatStore.chatStore) = (Ok ("chat-1", response), sv')
    /\ Ask.conversationContext "chat-1" ChatStore.chatStore = Ok context
    /\ finalOutput response <> EmptyString
    /\ (exists reply,
           In (EvChat Prompt.planningSystem
                      (Prompt.planning "best electric cars 2024"
                         (generateMockResults "best electric cars 2024") context) reply)
              (since World0 (Ask.world sv')))
    /\ ((saysEnough (reflection (analysisStepOf rq1 (generateMockResults q1) a1)) = true
         /\ traceSteps response =
            [planningStepOf "best electric cars 2024" plan;
             withObservation (newSearchStep rq1) placeholdersObservation;
             analysisStepOf rq1 (generateMockResults q1) a1]
         /\ consecutiveFailures (Ask.world sv') = 1)
        \/ (saysEnough (reflection (analysisStepOf rq1 (generateMockResults q1) a1)) = false
            /\ (exists rq2,
                   traceSteps response =
                   [planningStepOf "best electric cars 2024" plan;
                    withObservation (newSearchStep rq1) placeholdersObservation;
                    analysisStepOf rq1 (generateMockResults q1) a1;
                    withObservation (newSearchStep rq2)
                      (placeholdersObservation ++ failureNote)])
            /\ consecutiveFailures (Ask.world sv') = 2)).
Proof.
  apply (unreachable_provider_scenario Examples.offline Chats.counting "chat-1"
           "sk-test" (Ask.mkServer World0 ChatStore.chatStore)).
  - reflexivity.
  - intros n k q. now exists Examples.networkError.
  - intros n s u. now exists (Some "More searching is needed.").
  - vm_compute. discriminate.
Defined.

(** C4, counterexample. The provider cannot be reached and the model asks
    for more at every call: the loop runs its two rounds, and the counter
    is 2 only after the second. *)
Lemma unreachable_provider_runs_two_rounds :
  ~ haltsAfterRoundOne Examples.offline Chats.counting "chat-1"
      (Ask.mkServer World0 ChatStore.chatStore).
Proof.
  intros H. unfold haltsAfterRoundOne in H.
  destruct H as (response & sv' & Hrun & _ & Hrounds & _).
  apply (f_equal snd) in Hrun. cbn [snd] in Hrun.
  rewrite <- Hrun in Hrounds. vm_compute in Hrounds. discriminate.
Qed.


(* ===================================================================== *)
(** * Further properties of the gateway and of the loop *)

(** ** The search gateway *)



(** X2. With an API key, when the attempts before attempt [k + 1] fail and
    attempt [k + 1] gives results, [performSearch] returns exactly these
    results, in the provider's order, and has made [k + 1] requests: it
    asks nothing more after the first result set. *)
Theorem performSearch_returns_first_results (env : Env) (query key : string)
        (w : World) (k : nat) (results : list SearchResult) :
  Js.truthy (SERPER_API_KEY env) = Some key ->
  k < 3 ->
  (forall i, i < k -> failed (attemptOf (request env key query w i))) ->
  attemptOf (request env key query w k) = Found results ->
  exists w',
    performSearch env query w = (Ok results, w')
    /\ fetchCalls w' = S k + fetchCalls w.
Proof.
  intros Hkey Hk Hfail Hfound.
  rewrite (performSearch_run env query key w Hkey).
  unfold request in *.
  destruct k as [|[|[|k]]]; [| | |lia].
  - cbn [Nat.add] in Hfound. rewrite Hfound. eexists. split; reflexivity.
  - pose proof (Hfail 0 ltac:(lia)) as F0. cbn [Nat.add] in F0.
    change (1 + fetchCalls w) with (S (fetchCalls w)) in *.
    cbn [Nat.add] in Hfound. rewrite Hfound.
    destruct (attemptOf (serper env (fetchCalls w) key (Js.stripQuotes query)));
      [contradiction| | |]; eexists; split; reflexivity.
  - pose proof (Hfail 0 ltac:(lia)) as F0. pose proof (Hfail 1 ltac:(lia)) as F1.
    cbn [Nat.add] in F0, F1, Hfound.
    change (1 + fetchCalls w) with (S (fetchCalls w)).
    change (2 + fetchCalls w) with (S (S (fetchCalls w))).
    rewrite Hfound.
    destruct (attemptOf (serper env (fetchCalls w) key (Js.stripQuotes query)));
      [contradiction| | |];
      destruct (attemptOf (serper env (S (fetchCalls w)) key (Js.stripQuotes query)));
      try contradiction; eexists; split; reflexivity.
Qed.

Lemma performSearch_returns_first_results_witness :
  Js.truthy (SERPER_API_KEY Scenarios.recovering) = Some "serper-key"
  /\ exists w',
       performSearch Scenarios.recovering Examples.question World0
       = (Ok Examples.realResults, w')
       /\ fetchCalls w' = 2.
Proof.
  split; [reflexivity|].
  apply (performSearch_returns_first_results Scenarios.recovering Examples.question
           "serper-key" World0 1 Examples.realResults).
  - reflexivity.
  - lia.
  - intros i Hi. assert (i = 0) as -> by lia. exact I.
  - reflexivity.
Defined.

(** ** Strings, continued *)

Lemma append_assoc (a b c : string) : ((a ++ b) ++ c)%string = (a ++ (b ++ c))%string.
Proof. induction a as [|x a IH]; simpl; [reflexivity | now rewrite IH]. Qed.

Lemma rev_onto_append (s acc : string) : Js.rev_onto s acc = (Js.rev s ++ acc)%string.
Proof.
  unfold Js.rev. revert acc. induction s as [|c s IH]; intros acc; simpl; [reflexivity|].
  rewrite (IH (String c acc)), (IH (String c EmptyString)), append_assoc. reflexivity.
Qed.

Lemma rev_cons (c : ascii) (s : string) :
  Js.rev (String c s) = (Js.rev s ++ String c EmptyString)%string.
Proof. unfold Js.rev at 1. simpl. apply rev_onto_append. Qed.

Lemma rev_snoc (s : string) (c : ascii) :
  Js.rev (s ++ String c EmptyString) = String c (Js.rev s).
Proof.
  induction s as [|x s IH]; [reflexivity|].
  change (String x s ++ String c EmptyString)%string
    with (String x (s ++ String c EmptyString)).
  rewrite !rev_cons, IH. reflexivity.
Qed.

Lemma rev_involutive (s : string) : Js.rev (Js.rev s) = s.
Proof.
  induction s as [|c s IH]; [reflexivity|]. now rewrite rev_cons, rev_snoc, IH.
Qed.

Lemma prefix_iff (needle hay : string) :
  String.prefix needle hay = true <-> exists rest, hay = (needle ++ rest)%string.
Proof.
  split.
  - revert hay. induction needle as [|c n IH]; intros hay H.
    + now exists hay.
    + destruct hay as [|d hay]; [discriminate|]. simpl in H.
      destruct (ascii_dec c d) as [->|]; [|discriminate].
      destruct (IH hay H) as [rest ->]. now exists rest.
  - intros [rest ->]. apply prefix_append.
Qed.

(** [includes] is the substring relation. *)
Lemma includes_iff (hay needle : string) :
  Js.includes hay needle = true
  <-> exists before after, hay = (before ++ needle ++ after)%string.
Proof.
  split.
  - induction hay as [|c hay IH]; rewrite includes_unfold.
    + destruct (String.prefix needle EmptyString) eqn:E; [|discriminate].
      intros _. apply prefix_iff in E. destruct E as [rest E].
      exists EmptyString, rest. exact E.
    + destruct (String.prefix needle (String c hay)) eqn:E.
      * intros _. apply prefix_iff in E. destruct E as [rest E].
        exists EmptyString, rest. exact E.
      * intros H. destruct (IH H) as (before & after & ->).
        now exists (String c before), after.
  - intros (before & after & ->). apply includes_after, includes_at_start.
Qed.

Lemma includes_refl (s : string) : Js.includes s s = true.
Proof.
  apply includes_iff. exists EmptyString, EmptyString. now rewrite append_empty_r.
Qed.

Lemma includes_trans (a b c : string) :
  Js.includes a b = true -> Js.includes b c = true -> Js.includes a c = true.
Proof.
  rewrite !includes_iff. intros (p & q & ->) (p' & q' & ->).
  exists (p ++ p')%string, (q' ++ q)%string. now rewrite !append_assoc.
Qed.

Lemma includes_before (hay after needle : string) :
  Js.includes hay needle = true -> Js.includes (hay ++ after) needle = true.
Proof.
  rewrite !includes_iff. intros (p & q & ->).
  exists p, (q ++ after)%string. now rewrite !append_assoc.
Qed.

Lemma includes_piece (pieces : list string) (piece : string) :
  In piece pieces -> Js.includes (Js.tpl pieces) piece = true.
Proof.
  intros H. apply in_split in H. destruct H as (before & after & ->).
  apply includes_tpl.
Qed.

Lemma isQuote_iff (c : ascii) :
  Js.isQuote c = true <-> c = ascii_of_nat 34 \/ c = ascii_of_nat 39.
Proof.
  unfold Js.isQuote. rewrite orb_true_iff, !Ascii.eqb_eq. reflexivity.
Qed.

Lemma hasLineTerminator_iff (s : string) :
  Js.hasLineTerminator s = true <->
  exists t before after,
    In t [ String (ascii_of_nat 10) EmptyString;
           String (ascii_of_nat 13) EmptyString;
           String (ascii_of_nat 226)
                  (String (ascii_of_nat 128) (String (ascii_of_nat 168) EmptyString));
           String (ascii_of_nat 226)
                  (String (ascii_of_nat 128) (String (ascii_of_nat 169) EmptyString)) ]
    /\ s = (before ++ t ++ after)%string.
Proof.
  unfold Js.hasLineTerminator. rewrite existsb_exists. split.
  - intros (t & Hin & Hinc). apply includes_iff in Hinc.
    destruct Hinc as (before & after & ->). now exists t, before, after.
  - intros (t & before & after & Hin & ->). exists t. split; [exact Hin|].
    apply includes_iff. now exists before, after.
Qed.

(** X3. The replace call that strips quotes (search.ts line 42, llm.ts line
    229) removes exactly one pair of wrapping quote characters, each the
    double quote (code 34) or the single quote (code 39), whether they
    match or not, when the text between them holds no line terminator:
    no line feed (10), carriage return (13), line separator U+2028 or
    paragraph separator U+2029 (the bytes 226 128 168 and 226 128 169).
    Every other string is returned as it is. *)
Theorem stripQuotes_spec (s : string) :
  let quote c := c = ascii_of_nat 34 \/ c = ascii_of_nat 39 in
  let terminators :=
    [ String (ascii_of_nat 10) EmptyString;
      String (ascii_of_nat 13) EmptyString;
      String (ascii_of_nat 226)
             (String (ascii_of_nat 128) (String (ascii_of_nat 168) EmptyString));
      String (ascii_of_nat 226)
             (String (ascii_of_nat 128) (String (ascii_of_nat 169) EmptyString)) ] in
  let oneLine middle :=
    forall t before after,
      In t terminators -> middle <> (before ++ t ++ after)%string in
  (exists c0 middle c1,
      s = String c0 (middle ++ String c1 EmptyString)
      /\ quote c0 /\ quote c1
      /\ oneLine middle
      /\ Js.stripQuotes s = middle)
  \/ (Js.stripQuotes s = s
      /\ forall c0 middle c1,
           s = String c0 (middle ++ String c1 EmptyString) ->
           quote c0 -> quote c1 -> ~ oneLine middle).
Proof.
  intros quote terminators oneLine.
  assert (Hbroken : forall middle,
             Js.hasLineTerminator middle = true -> ~ oneLine middle).
  { intros middle H Hone. apply hasLineTerminator_iff in H.
    destruct H as (t & before & after & Hin & E). exact (Hone t before after Hin E). }
  assert (Hone : forall middle,
             Js.hasLineTerminator middle = false -> oneLine middle).
  { intros middle H t before after Hin E.
    assert (Ht : Js.hasLineTerminator middle = true)
      by (apply hasLineTerminator_iff; now exists t, before, after).
    congruence. }
  destruct s as [|c0 rest].
  { right. split; [reflexivity|]. intros c0 m c1 H. discriminate. }
  unfold Js.stripQuotes.
  destruct (Js.rev rest) as [|c1 rm] eqn:Erev.
  { right. split; [reflexivity|]. intros c0' m c1 H _ _. exfalso.
    injection H as _ ->. rewrite rev_snoc in Erev. discriminate. }
  assert (Erest : rest = (Js.rev rm ++ String c1 EmptyString)%string).
  { rewrite <- (rev_involutive rest), Erev. apply rev_cons. }
  destruct (Js.isQuote c0 && Js.isQuote c1 && negb (Js.hasLineTerminator (Js.rev rm)))
    eqn:Etest.
  - left. exists c0, (Js.rev rm), c1.
    apply andb_prop in Etest. destruct Etest as [Eq Elt].
    apply andb_prop in Eq. destruct Eq as [E0 E1].
    apply negb_true_iff in Elt. rewrite Erest.
    split; [reflexivity|]. split; [now apply isQuote_iff|].
    split; [now apply isQuote_iff|]. split; [now apply Hone | reflexivity].
  - right. split; [reflexivity|]. intros c0' m c1' H Q0 Q1.
    injection H as <- Hrest. rewrite Hrest, rev_snoc in Erev.
    injection Erev as <- <-. apply isQuote_iff in Q0, Q1.
    rewrite rev_involutive, Q0, Q1 in Etest.
    simpl in Etest. apply negb_false_iff in Etest. now apply Hbroken.
Qed.

(** ** Missing keys *)

Section WithoutSearchKey.

Variable env : Env.
Hypothesis no_key : Js.truthy (SERPER_API_KEY env) = None.

Lemma performSearch_without_key (query : string) (w : World) :
  performSearch env query w = (Ok (generateMockResults query), w).
Proof. unfold performSearch. now rewrite no_key. Qed.

Lemma searched_without_key (query : string) (w : World) (rq : string)
      (rs : list SearchResult) (n : nat) (evs : list Event) :
  searched env query w rq rs n evs -> n = 0 /\ evs = [].
Proof.
  intros [Hrun _]. rewrite performSearch_without_key in Hrun.
  pose proof (f_equal (fun out => fetchCalls (snd out)) Hrun) as Hf.
  pose proof (f_equal (fun out => events (snd out)) Hrun) as He.
  cbn [snd fetchCalls events fetched] in Hf, He. split; [lia|].
  rewrite <- (app_nil_r (events w ++ _)) in He at 1.
  apply app_inv_head in He. now symmetry.
Qed.

Lemma RoundRun_without_key (query : string) (w : World) (r : Result Round) (w' : World) :
  RoundRun env query w r w' ->
  fetchCalls w' = fetchCalls w
  /\ exists evs, events w' = events w ++ evs /\ forallb isChat evs = true.
Proof.
  intros [e He | content rs n evs rq Hr Hs Hm Hc
          | content rs n evs e rq failures Hr Hs Hc Ha
          | content rs n evs analysis rq analysisStep Hr Hs Hc Ha];
    cbn [events fetchCalls];
    try (destruct (searched_without_key _ _ _ _ _ _ Hs) as [-> ->]);
    (split; [reflexivity|]); eexists; (split; [reflexivity|]); reflexivity.
Qed.

Lemma RoundsRun_without_key (query : string) (n : nat) (w : World) (r : Result unit)
      (w' : World) :
  RoundsRun env query n w r w' ->
  fetchCalls w' = fetchCalls w
  /\ exists evs, events w' = events w ++ evs /\ forallb isChat evs = true.
Proof.
  induction 1 as [w | n w w' e H | n w w' H | n w w1 w' r H Hrest IH].
  - split; [reflexivity|]. exists []. now rewrite app_nil_r.
  - now apply RoundRun_without_key in H.
  - now apply RoundRun_without_key in H.
  - apply RoundRun_without_key in H. destruct H as (Hf & evs & E & Hc).
    destruct IH as (Hf' & evs' & E' & Hc').
    split; [congruence|]. exists (evs ++ evs').
    rewrite E', E, <- app_assoc, forallb_app, Hc, Hc'. now split.
Qed.

End WithoutSearchKey.

(** X4. Without SERPER_API_KEY the gateway asks the provider nothing: a
    search returns at once the synthetic batch of the query as it was
    given, quotes included, and a whole invocation of the loop makes no
    request and waits for nothing (it only makes model calls). *)
Theorem no_search_key_no_request (env : Env) (query : string)
        (initialSearchResults : list SearchResult) (previousContext : string)
        (w : World) :
  Js.truthy (SERPER_API_KEY env) = None ->
  let run := generateResearchResponse env query initialSearchResults previousContext w in
  (forall q w0, performSearch env q w0 = (Ok (generateMockResults q), w0))
  /\ fetchCalls (snd run) = fetchCalls w
  /\ forallb isChat (since w (snd run)) = true.
Proof.
  intros Hkey run. split; [exact (performSearch_without_key env Hkey)|].
  subst run.
  destruct (generateResearchResponse env query initialSearchResults previousContext w)
    as [r w'] eqn:E.
  apply generateResearchResponse_run in E. cbn [snd].
  destruct E as [Hno | key r w' _ HP].
  { split; [reflexivity|]. unfold since. now rewrite skipn_all. }
  destruct HP as [e prompt reply ER | content rr w2 r w' prompt reply ER Hloop HS].
  { cbn [fetchCalls]. split; [reflexivity|].
    erewrite since_app; [|cbn [events]; reflexivity]. reflexivity. }
  apply (RoundsRun_without_key env Hkey) in Hloop.
  cbn [fetchCalls events] in Hloop. destruct Hloop as (Hf & evs & E & Hc).
  destruct HS as [e w2 | e w2 EP | p w2 reply' EP]; cbn [fetchCalls events].
  1,2: split; [exact Hf|];
    rewrite (since_app w w2 (EvChat Prompt.planningSystem prompt reply :: evs));
    [cbn [forallb isChat]; exact Hc | rewrite E, <- app_assoc; reflexivity].
  split; [exact Hf|].
  erewrite since_app; [|cbn [events]; rewrite E, <- !app_assoc; reflexivity].
  cbn [app forallb isChat]. rewrite forallb_app, Hc. reflexivity.
Qed.

Lemma no_search_key_no_request_witness :
  Js.truthy (SERPER_API_KEY Scenarios.noSearchKey) = None
  /\ fetchCalls (snd (generateResearchResponse Scenarios.noSearchKey Examples.question
                        (generateMockResults Examples.question) EmptyString World0)) = 0.
Proof.
  split; [reflexivity|].
  exact (proj1 (proj2 (no_search_key_no_request Scenarios.noSearchKey Examples.question
                         (generateMockResults Examples.question) EmptyString World0
                         eq_refl))).
Defined.

(** X5. Without OPENAI_API_KEY an invocation throws the configuration
    error before any model call and leaves the world as it found it; but
    [processQuery] checks the key only after its initial search and after
    it has read the chat: a request still sends its search to the
    provider, then fails on the chat when its id resolves to an inherited
    property, and on the missing key otherwise; the store is not
    written. *)
Theorem missing_model_key_is_found_after_the_search (env : Env) (sys : ChatStore.Sys)
        (query chatId : string) (sv : Ask.Server) :
  Js.truthy (OPENAI_API_KEY env) = None ->
  (forall results context w0,
      generateResearchResponse env query results context w0 = (Throw missingKey, w0))
  /\ Ask.processQuery env sys query chatId sv
     = (Throw match ChatStore.getChat chatId (Ask.store sv) with
              | ChatStore.Inherited => ChatStore.lengthError
              | _ => missingKey
              end,
        Ask.mkServer (snd (performSearch env query (Ask.world sv))) (Ask.store sv)).
Proof.
  intros Hkey.
  assert (Hthrow : forall results context w0,
             generateResearchResponse env query results context w0 = (Throw missingKey, w0)).
  { intros results context w0. unfold generateResearchResponse, initOpenAI.
    rewrite Hkey. reflexivity. }
  split; [exact Hthrow|].
  unfold Ask.processQuery.
  destruct (performSearch_frame env query (Ask.world sv))
    as (results & n & evs & Hrun & _).
  rewrite Hrun. cbn [snd]. unfold Ask.conversationContext.
  destruct (ChatStore.getChat chatId (Ask.store sv)) as [chat| |];
    [rewrite Hthrow | | rewrite Hthrow]; reflexivity.
Qed.

Lemma missing_model_key_is_found_after_the_search_witness :
  Js.truthy (OPENAI_API_KEY Scenarios.noModelKey) = None
  /\ fst (Ask.processQuery Scenarios.noModelKey Chats.counting Examples.question
            "chat-1" (Ask.mkServer World0 ChatStore.chatStore)) = Throw missingKey
  /\ fst (Ask.processQuery Scenarios.noModelKey Chats.counting Examples.question
            "constructor" (Ask.mkServer World0 ChatStore.chatStore))
     = Throw ChatStore.lengthError
  /\ fetchCalls (Ask.world (snd (Ask.processQuery Scenarios.noModelKey Chats.counting
                                   Examples.question "chat-1"
                                   (Ask.mkServer World0 ChatStore.chatStore)))) = 1.
Proof.
  split; [reflexivity|].
  rewrite (proj2 (missing_model_key_is_found_after_the_search Scenarios.noModelKey
                    Chats.counting Examples.question "chat-1"
                    (Ask.mkServer World0 ChatStore.chatStore) eq_refl)).
  rewrite (proj2 (missing_model_key_is_found_after_the_search Scenarios.noModelKey
                    Chats.counting Examples.question "constructor"
                    (Ask.mkServer World0 ChatStore.chatStore) eq_refl)).
  split; [reflexivity|]. split; reflexivity.
Defined.

(** ** Early exits and budgets of the loop *)

(** X6. When the analysis step that a round appends carries a sufficiency
    marker (its reflection contains [sufficient information] or [enough
    information]), the round breaks the loop: whatever number of
    iterations is left, no further round is started. *)
Theorem sufficiency_marker_ends_the_loop (env : Env) (openai : OpenAI) (query : string)
        (w w' : World) (flow : Round) (analysisStep : AgentTraceStep) :
  researchRound env openai query w = (Ok flow, w') ->
  nth_error (trace w') (S (length (trace w))) = Some analysisStep ->
  saysEnough (reflection analysisStep) = true ->
  flow = Break
  /\ forall remaining,
       researchRounds env openai query (S remaining) w = (Ok tt, w').
Proof.
  intros Hrun Hnth Hsays.
  assert (Hflow : flow = Break).
  { apply researchRound_run in Hrun.
    inversion Hrun as [ | content rs n evs rq Hr Hs Hm Hc
                      | content rs n evs e rq failures Hr Hs Hc Ha
                      | content rs n evs analysis rq step Hr Hs Hc Ha ];
      subst; cbn [trace] in Hnth.
    - reflexivity.
    - rewrite nth_error_app2 in Hnth by lia.
      replace (S (length (trace w)) - length (trace w)) with 1 in Hnth by lia.
      discriminate.
    - rewrite nth_error_app2 in Hnth by lia.
      replace (S (length (trace w)) - length (trace w)) with 1 in Hnth by lia.
      cbn [nth_error] in Hnth. injection Hnth as <-.
      change (saysEnough (reflection step) = true) in Hsays.
      change ((if saysEnough (reflection step) then Break else Next) = Break).
      now rewrite Hsays. }
  split; [exact Hflow|]. subst flow.
  intros remaining. simpl. unfold bind. now rewrite Hrun.
Qed.

Lemma sufficiency_marker_ends_the_loop_witness :
  fst (researchRound Scenarios.satisfied Examples.client Examples.question
         (Examples.planned 0)) = Ok Break
  /\ forall remaining,
       researchRounds Scenarios.satisfied Examples.client Examples.question
         (S remaining) (Examples.planned 0)
       = (Ok tt, snd (researchRound Scenarios.satisfied Examples.client Examples.question
                        (Examples.planned 0))).
Proof.
  match eval vm_compute in
        (researchRound Scenarios.satisfied Examples.client Examples.question
           (Examples.planned 0))
  with
  | (Ok ?flow, ?w') =>
      assert (Hrun : researchRound Scenarios.satisfied Examples.client Examples.question
                       (Examples.planned 0) = (Ok flow, w'))
        by (vm_compute; reflexivity);
      match eval vm_compute in (nth_error (trace w') 2) with
      | Some ?step =>
          destruct (sufficiency_marker_ends_the_loop _ _ _ _ _ _ step Hrun
                      ltac:(vm_compute; reflexivity) ltac:(vm_compute; reflexivity))
            as [Hflow Hloop];
          rewrite Hrun; cbn [fst snd]; split; [reflexivity | exact Hloop]
      end
  end.
Defined.

Section Budget.

Variable env : Env.
Variable query : string.

Lemma RoundRun_chatCalls (w : World) (r : Result Round) (w' : World) :
  RoundRun env query w r w' ->
  chatCalls w < chatCalls w' <= 2 + chatCalls w
  /\ (consecutiveFailures w = 0 -> forall flow, r = Ok flow ->
      chatCalls w' = 2 + chatCalls w).
Proof.
  intros [e He | content rs n evs rq Hr Hs Hm Hc
          | content rs n evs e rq failures Hr Hs Hc Ha
          | content rs n evs analysis rq analysisStep Hr Hs Hc Ha];
    cbn [chatCalls]; (split; [lia|]); intros Hzero flow Hflow;
    try discriminate; try reflexivity.
  rewrite Hzero in Hc. lia.
Qed.

Lemma RoundsRun_chatCalls (n : nat) (w : World) (r : Result unit) (w' : World) :
  RoundsRun env query n w r w' ->
  chatCalls w <= chatCalls w' <= 2 * n + chatCalls w.
Proof.
  induction 1 as [w | n w w' e H | n w w' H | n w w1 w' r H Hrest IH];
    try (apply RoundRun_chatCalls in H; destruct H as [H _]); lia.
Qed.

Lemma RoundsRun_first_round (n : nat) (w : World) (w' : World) :
  RoundsRun env query (S n) w (Ok tt) w' ->
  consecutiveFailures w = 0 ->
  2 + chatCalls w <= chatCalls w'.
Proof.
  intros H Hzero.
  inversion H as [ | | n0 w0 w0' H1 | n0 w0 w1 w0' r0 H1 H2 ]; subst.
  - apply RoundRun_chatCalls in H1. destruct H1 as [_ H1].
    rewrite (H1 Hzero Break eq_refl). lia.
  - apply RoundRun_chatCalls in H1. destruct H1 as [_ H1].
    apply RoundsRun_chatCalls in H2. rewrite (H1 Hzero Next eq_refl) in H2. lia.
Qed.

End Budget.

(** X7. An invocation makes at most 6 model calls, of which at most one
    planning call and at most one synthesis call; an invocation that
    returns a response has made at least 4 (the plan, the refined query
    and the analysis of the first round, the synthesis), with exactly one
    planning call and one synthesis call. *)
Theorem model_call_budget (env : Env) (query : string)
        (initialSearchResults : list SearchResult) (previousContext : string)
        (w : World) :
  let run := generateResearchResponse env query initialSearchResults previousContext w in
  chatCalls (snd run) <= 6 + chatCalls w
  /\ countChat Prompt.planningSystem (since w (snd run)) <= 1
  /\ countChat Prompt.finalSystem (since w (snd run)) <= 1
  /\ (forall response,
         fst run = Ok response ->
         4 + chatCalls w <= chatCalls (snd run)
         /\ countChat Prompt.planningSystem (since w (snd run)) = 1
         /\ countChat Prompt.finalSystem (since w (snd run)) = 1).
Proof.
  intros run. subst run.
  destruct (generateResearchResponse env query initialSearchResults previousContext w)
    as [r w'] eqn:E.
  apply generateResearchResponse_run in E. cbn [fst snd].
  destruct E as [Hno | key r w' _ HP].
  { unfold since. rewrite skipn_all. cbn [countChat filter length].
    split; [lia|]. split; [lia|]. split; [lia|]. intros response [=]. }
  destruct HP as [e prompt reply ER | content rr w2 r w' prompt reply ER Hloop HS].
  { rewrite (since_app w _ [EvChat Prompt.planningSystem prompt reply])
      by reflexivity.
    rewrite !countChat_chat. systems. cbn [chatCalls countChat filter length Nat.add].
    split; [lia|]. split; [lia|]. split; [lia|]. intros response [=]. }
  pose proof (RoundsRun_chatCalls _ _ _ _ _ _ Hloop) as Hcalls.
  pose proof (RoundsRun_calls _ _ _ _ _ _ Hloop) as (evs & E & _ & _ & Hp & Hf & _).
  cbn [chatCalls events] in Hcalls, E.
  assert (Hevs : events w2 = events w ++ EvChat Prompt.planningSystem prompt reply :: evs)
    by (rewrite E, <- app_assoc; reflexivity).
  destruct HS as [e w2 | e w2 EP | p w2 reply' EP].
  - rewrite (since_app w w2 _ Hevs).
    rewrite !countChat_chat, Hp, Hf. systems. cbn [Nat.add].
    split; [lia|]. split; [lia|]. split; [lia|]. intros response [=].
  - rewrite (since_app w w2 _ Hevs).
    rewrite !countChat_chat, Hp, Hf. systems. cbn [Nat.add].
    split; [lia|]. split; [lia|]. split; [lia|]. intros response [=].
  - rewrite (since_app w _ (EvChat Prompt.planningSystem prompt reply
                            :: evs ++ [EvChat Prompt.finalSystem p reply']))
      by (cbn [events]; rewrite Hevs, <- app_assoc; reflexivity).
    rewrite !countChat_chat, !countChat_app, !countChat_chat, Hp, Hf. systems.
    cbn [chatCalls countChat filter length Nat.add].
    split; [lia|]. split; [lia|]. split; [lia|].
    intros response _.
    apply RoundsRun_first_round in Hloop; [|reflexivity].
    cbn [chatCalls] in Hloop. split; [lia|]. split; lia.
Qed.

(** ** The observations of the search steps *)

Section Settled.

Variable env : Env.
Variable query : string.

Lemma RoundRun_settled (w : World) (r : Result Round) (w' : World) :
  RoundRun env query w r w' ->
  Forall (fun step => observation step <> "Waiting for search results...") (trace w) ->
  Forall (fun step => observation step <> "Waiting for search results...") (trace w').
Proof.
  intros [e He | content rs n evs rq Hr Hs Hm Hc
          | content rs n evs e rq failures Hr Hs Hc Ha
          | content rs n evs analysis rq analysisStep Hr Hs Hc Ha] Hall;
    cbn [trace]; [exact Hall | | |]; apply Forall_app; (split; [exact Hall|]).
  - constructor; [|constructor]. cbn. discriminate.
  - constructor; [|constructor].
    destruct (2 <=? failures); cbn; discriminate.
  - constructor; [|constructor; [|constructor]].
    + destruct (Js.every isPlaceholder rs); cbn; discriminate.
    + unfold analysisStep, analysisStepOf.
      destruct (Js.every isPlaceholder rs); cbn; discriminate.
Qed.

Lemma RoundsRun_settled (n : nat) (w : World) (r : Result unit) (w' : World) :
  RoundsRun env query n w r w' ->
  Forall (fun step => observation step <> "Waiting for search results...") (trace w) ->
  Forall (fun step => observation step <> "Waiting for search results...") (trace w').
Proof.
  induction 1 as [w | n w w' e H | n w w' H | n w w1 w' r H Hrest IH]; intros Hall;
    eauto using RoundRun_settled.
Qed.

End Settled.

(** X8. The search step of a round is pushed with the observation
    [Waiting for search results...] and every path through the round
    assigns it again: in the array that an invocation builds, whether it
    returns or throws after the key was found, no step still has that
    observation; the response that is returned carries that array. *)
Theorem search_observations_are_settled (env : Env) (query : string)
        (initialSearchResults : list SearchResult) (previousContext : string)
        (key : string) (w : World) :
  Js.truthy (OPENAI_API_KEY env) = Some key ->
  let run := generateResearchResponse env query initialSearchResults previousContext w in
  Forall (fun step => forall refinedQuery,
              observation step <> observation (newSearchStep refinedQuery))
         (trace (snd run))
  /\ forall response, fst run = Ok response -> traceSteps response = trace (snd run).
Proof.
  intros Hkey run. subst run.
  destruct (generateResearchResponse env query initialSearchResults previousContext w)
    as [r w'] eqn:E.
  apply generateResearchResponse_run in E. cbn [fst snd].
  destruct E as [Hno | key' r w' _ HP]; [congruence|].
  assert (Hall : forall l,
             Forall (fun step => observation step <> "Waiting for search results...") l ->
             Forall (fun step => forall refinedQuery,
                       observation step <> observation (newSearchStep refinedQuery)) l)
    by (intros l; apply Forall_impl; intros step Hs rq; exact Hs).
  destruct HP as [e prompt reply ER | content rr w2 r w' prompt reply ER Hloop HS].
  { cbn [trace]. split; [constructor | intros response [=]]. }
  apply RoundsRun_settled in Hloop;
    [|cbn [trace]; constructor; [cbn; discriminate | constructor]].
  destruct HS as [e w2 | e w2 EP | p w2 reply' EP].
  - split; [exact (Hall _ Hloop) | intros response [=]].
  - split; [exact (Hall _ Hloop) | intros response [=]].
  - cbn [trace]. split; [exact (Hall _ Hloop)|].
    intros response Hr. destruct reply' as [answer|e]; [|discriminate].
    now injection Hr as <-.
Qed.

Lemma search_observations_are_settled_witness :
  let run := generateResearchResponse Examples.researching Examples.question [] EmptyString
               World0 in
  Forall (fun step => forall refinedQuery,
              observation step <> observation (newSearchStep refinedQuery))
         (trace (snd run))
  /\ forall response, fst run = Ok response -> traceSteps response = trace (snd run).
Proof.
  match eval vm_compute in (Js.truthy (OPENAI_API_KEY Examples.researching)) with
  | Some ?key =>
      exact (search_observations_are_settled Examples.researching Examples.question
               [] EmptyString key World0 ltac:(vm_compute; reflexivity))
  end.
Defined.

(** ** The planning step and the filter of the synthesis *)

Lemma includes_skip (c : ascii) (s needle : string) :
  String.prefix needle (String c s) = false ->
  Js.includes (String c s) needle = Js.includes s needle.
Proof. intros H. rewrite includes_unfold, H. reflexivity. Qed.

(** A character that does not occur in [needle], appended to [t], starts
    no occurrence of [needle] and completes none. *)
Lemma prefix_snoc (needle t : string) (c : ascii) :
  Js.includes needle (String c EmptyString) = false ->
  String.prefix needle (t ++ String c EmptyString) = String.prefix needle t.
Proof.
  revert t. induction needle as [|x needle IH]; intros t H.
  - now destruct t.
  - rewrite includes_unfold in H. cbn [String.prefix] in H.
    destruct (ascii_dec c x) as [->|Hne].
    + destruct needle; discriminate.
    + destruct t as [|y t]; cbn [append String.prefix].
      * destruct (ascii_dec x c) as [->|_]; [contradiction | reflexivity].
      * destruct (ascii_dec x y); [|reflexivity]. apply IH.
        destruct (Js.includes needle (String c EmptyString)); [|reflexivity].
        now destruct needle.
Qed.

Lemma includes_snoc (s needle : string) (c : ascii) :
  Js.includes needle (String c EmptyString) = false ->
  Js.includes (s ++ String c EmptyString) needle = Js.includes s needle.
Proof.
  intros H. induction s as [|a s IH].
  - cbn [append]. rewrite (includes_unfold (String c EmptyString)).
    rewrite (includes_unfold EmptyString).
    rewrite <- (prefix_snoc needle EmptyString c H). cbn [append].
    now destruct (String.prefix needle (String c EmptyString)), needle.
  - change (String a s ++ String c EmptyString)%string
      with (String a (s ++ String c EmptyString)).
    rewrite (includes_unfold (String a (s ++ String c EmptyString))).
    rewrite (includes_unfold (String a s)).
    change (String a (s ++ String c EmptyString))
      with (String a s ++ String c EmptyString)%string.
    now rewrite prefix_snoc, IH.
Qed.

Lemma planning_action_includes (query : string) (content : option string) :
  Js.includes (action (planningStepOf query content)) "Analyzing results"
  = Js.includes query "Analyzing results".
Proof.
  unfold planningStepOf. cbn [action].
  change (Js.tpl ["Initial planning for query: "; Js.dq; query; Js.dq])
    with ("Initial planning for query: " ++ (Js.dq ++ (query ++ Js.dq)))%string.
  cbn [append Js.dq Js.chr].
  repeat (rewrite includes_skip by reflexivity).
  apply includes_snoc. reflexivity.
Qed.

(** X9. The filter of the synthesis selects steps by the text of their
    action, and the action of the planning step quotes the query: the
    planning step passes the filter exactly when the query contains
    [Analyzing results].  It is then rendered twice in the final prompt,
    as the first step and again as an analysis, unless two later steps
    pass the filter. *)
Theorem plan_is_read_twice_iff (query : string) (content : option string)
        (rest : list AgentTraceStep) :
  let plan := planningStepOf query content in
  let analyses := filter isAnalysis rest in
  isAnalysis plan = Js.includes query "Analyzing results"
  /\ essentialSteps (plan :: rest)
     = if Js.includes query "Analyzing results" && (length analyses <? 2)
       then Some plan :: Some plan :: map Some analyses
       else Some plan :: map Some (Js.sliceLast 2 analyses).
Proof.
  intros plan analyses.
  assert (Hplan : isAnalysis plan = Js.includes query "Analyzing results").
  { unfold isAnalysis. unfold plan at 1. rewrite planning_action_includes.
    unfold plan, planningStepOf, Js.orElse, Js.truthy. cbn [reflection].
    destruct content as [[|c r]|]; apply andb_true_r. }
  split; [exact Hplan|].
  unfold essentialSteps. cbn [nth_error filter]. rewrite Hplan. fold analyses.
  destruct (Js.includes query "Analyzing results"); cbn [andb]; [|reflexivity].
  unfold Js.sliceLast. cbn [length].
  destruct (length analyses <? 2) eqn:E.
  - apply Nat.ltb_lt in E. replace (S (length analyses) - 2) with 0 by lia. reflexivity.
  - apply Nat.ltb_ge in E.
    replace (S (length analyses) - 2) with (S (length analyses - 2)) by lia.
    reflexivity.
Qed.

(** ** The loop for any number of iterations *)

Section AnyBound.

Variable env : Env.
Variable openai : OpenAI.
Variable query : string.

Lemma RoundRun_counter (w : World) (r : Result Round) (w' : World) :
  RoundRun env query w r w' ->
  consecutiveFailures w < 2 ->
  consecutiveFailures w' <= 2 /\ (r = Ok Next -> consecutiveFailures w' < 2).
Proof.
  intros [e He | content rs n evs rq Hr Hs Hm Hc
          | content rs n evs e rq failures Hr Hs Hc Ha
          | content rs n evs analysis rq analysisStep Hr Hs Hc Ha] Hlt;
    cbn [consecutiveFailures].
  - split; [lia | discriminate].
  - split; [lia | discriminate].
  - assert (Hf : failures <= 2).
    { unfold failures, judged. destruct Hc as [-> | Hc]; [lia|].
      destruct (Js.every isPlaceholder rs); lia. }
    split; [exact Hf|]. destruct (2 <=? failures) eqn:E; [discriminate|].
    intros _. now apply Nat.leb_gt in E.
  - assert (Hj : judged w rs < 2).
    { unfold judged. destruct Hc as [-> | Hc]; [lia|].
      destruct (Js.every isPlaceholder rs); lia. }
    split; [lia | intros _; exact Hj].
Qed.

Lemma RoundsRun_counter (n : nat) (w : World) (r : Result unit) (w' : World) :
  RoundsRun env query n w r w' ->
  consecutiveFailures w < 2 -> consecutiveFailures w' <= 2.
Proof.
  induction 1 as [w | n w w' e H | n w w' H | n w w1 w' r H Hrest IH]; intros Hlt.
  - lia.
  - now apply RoundRun_counter in H.
  - now apply RoundRun_counter in H.
  - apply RoundRun_counter in H; [|exact Hlt]. apply IH. now apply H.
Qed.

Lemma RoundsRun_fetchCalls (n : nat) (w : World) (r : Result unit) (w' : World) :
  RoundsRun env query n w r w' -> fetchCalls w' <= 3 * n + fetchCalls w.
Proof.
  intros H. apply RoundsRun_calls in H.
  destruct H as (evs & _ & _ & _ & _ & _ & H). exact H.
Qed.

(** A round that does not ask for another one ends the loop, whatever
    number of iterations is left. *)
Lemma last_round (w : World) (remaining : nat) :
  fst (researchRound env openai query w) <> Ok Next ->
  researchRounds env openai query (S remaining) w
  = researchRounds env openai query 1 w.
Proof.
  intros H. cbn [researchRounds]. unfold bind.
  destruct (researchRound env openai query w) as [[[|]|e] w1]; cbn [fst] in H;
    [reflexivity | contradiction | reflexivity].
Qed.

Hypothesis only_placeholders :
  forall q w rs w', performSearch env q w = (Ok rs, w') -> Js.every isPlaceholder rs = true.

Lemma RoundRun_placeholders (w : World) (r : Result Round) (w' : World) :
  RoundRun env query w r w' ->
  (consecutiveFailures w = 0 -> r = Ok Next -> consecutiveFailures w' = 1)
  /\ (1 <= consecutiveFailures w -> r <> Ok Next).
Proof.
  intros [e He | content rs n evs rq Hr Hs Hm Hc
          | content rs n evs e rq failures Hr Hs Hc Ha
          | content rs n evs analysis rq analysisStep Hr Hs Hc Ha];
    cbn [consecutiveFailures];
    try (pose proof (only_placeholders _ _ _ _ (proj1 Hs)) as Hp).
  - split; [discriminate | intros _; discriminate].
  - split; [discriminate | intros _; discriminate].
  - split.
    + intros Hz. unfold failures, judged. rewrite Hp, Hz. cbn. discriminate.
    + intros Hge. destruct Hc as [Hc | Hc]; [congruence | lia].
  - split.
    + intros Hz _. unfold judged. now rewrite Hp, Hz.
    + intros Hge. destruct Hc as [Hc | Hc]; [congruence | lia].
Qed.

Lemma two_rounds_at_most (w : World) (remaining : nat) :
  consecutiveFailures w = 0 ->
  researchRounds env openai query (S (S remaining)) w
  = researchRounds env openai query 2 w.
Proof.
  intros Hz. cbn [researchRounds]. unfold bind.
  destruct (researchRound env openai query w) as [[[|]|e] w1] eqn:E;
    [reflexivity | | reflexivity].
  apply researchRound_run, RoundRun_placeholders in E. destruct E as [E _].
  specialize (E Hz eq_refl).
  destruct (researchRound env openai query w1) as [[[|]|e] w2] eqn:E2;
    [reflexivity | | reflexivity].
  apply researchRound_run, RoundRun_placeholders in E2. destruct E2 as [_ E2].
  exfalso. apply E2; [lia | reflexivity].
Qed.

End AnyBound.

(** X10. When every search gives placeholders only (no key of the search
    provider, or a provider that gives nothing), the second round gives
    up: iterations beyond the second are never run, and the loop behaves
    for any larger bound, the default of 3 included, as it does for 2. *)
Theorem placeholders_stop_the_loop_after_two_rounds (env : Env) (openai : OpenAI)
        (query plan : string) (maxIterations : nat) (w : World) :
  (forall q w0 rs w1,
      performSearch env q w0 = (Ok rs, w1) -> Js.every isPlaceholder rs = true) ->
  2 <= maxIterations ->
  performIterativeResearch env openai query plan maxIterations w
  = performIterativeResearch env openai query plan 2 w.
Proof.
  intros Hp Hn. destruct maxIterations as [|[|remaining]]; try lia.
  unfold performIterativeResearch, bind, setFailures.
  now apply two_rounds_at_most.
Qed.

Lemma placeholders_stop_the_loop_after_two_rounds_witness :
  performIterativeResearch Scenarios.noSearchKey Examples.client Examples.question
    EmptyString 3 (Examples.planned 0)
  = performIterativeResearch Scenarios.noSearchKey Examples.client Examples.question
      EmptyString 2 (Examples.planned 0).
Proof.
  apply placeholders_stop_the_loop_after_two_rounds; [|lia].
  intros q w0 rs w1 H.
  unfold performSearch in H.
  change (Js.truthy (SERPER_API_KEY Scenarios.noSearchKey)) with (@None string) in H.
  injection H as <- _. reflexivity.
Defined.

(** X11. For any bound, the loop only appends to the array it is given:
    the steps that were there are unchanged, each round adds its search
    step and at most one analysis step, and there are no more rounds than
    the bound; it makes at most 2 model calls and 3 requests per
    iteration, and leaves the counter of failures at 2 at most. *)
Theorem performIterativeResearch_appends (env : Env) (openai : OpenAI)
        (query plan : string) (maxIterations : nat) (w : World) :
  let run := performIterativeResearch env openai query plan maxIterations w in
  (exists rounds,
      trace (snd run) = trace w ++ concat rounds
      /\ length rounds <= maxIterations
      /\ Forall RoundSteps rounds)
  /\ chatCalls (snd run) <= 2 * maxIterations + chatCalls w
  /\ fetchCalls (snd run) <= 3 * maxIterations + fetchCalls w
  /\ consecutiveFailures (snd run) <= 2.
Proof.
  intros run. subst run. unfold performIterativeResearch, bind, setFailures.
  destruct (researchRounds env openai query maxIterations _) as [r w'] eqn:E.
  apply researchRounds_run in E. cbn [snd].
  split; [|split; [|split]].
  - apply RoundsRun_trace in E. exact E.
  - apply RoundsRun_chatCalls in E. cbn [chatCalls] in E. lia.
  - apply RoundsRun_fetchCalls in E. exact E.
  - apply RoundsRun_counter in E; [exact E | cbn; lia].
Qed.

(** ** What the prompts quote *)

Lemma includes_empty (s : string) : Js.includes s EmptyString = true.
Proof. rewrite includes_unfold. now destruct s. Qed.

Lemma includes_join (sep : string) (l : list string) (x : string) :
  In x l -> Js.includes (Js.join sep l) x = true.
Proof.
  unfold Js.join. induction l as [|y l IH]; [contradiction|].
  intros [->|Hin].
  - destruct l as [|z l]; cbn [String.concat]; [apply includes_refl | apply includes_at_start].
  - destruct l as [|z l]; [contradiction|]. cbn [String.concat].
    apply includes_after, includes_after, IH, Hin.
Qed.

Lemma In_mapiFrom {A B : Type} (f : nat -> A -> B) (l : list A) (x : A) (i : nat) :
  In x l -> exists j, In (f j x) (Js.mapiFrom i f l).
Proof.
  revert i. induction l as [|y l IH]; intros i; [contradiction|].
  intros [->|Hin].
  - exists i. now left.
  - destruct (IH (S i) Hin) as [j Hj]. exists j. now right.
Qed.

(** A list rendered item by item and joined contains whatever each
    rendering contains. *)
Lemma includes_rendered {A : Type} (render : nat -> A -> string) (l : list A) (x : A)
      (sep piece : string) :
  In x l ->
  (forall i, Js.includes (render i x) piece = true) ->
  Js.includes (Js.join sep (Js.mapi render l)) piece = true.
Proof.
  intros Hin Hpiece. destruct (In_mapiFrom render l x 0 Hin) as [j Hj].
  apply includes_trans with (render j x); [|apply Hpiece].
  now apply includes_join.
Qed.

Lemma step_quotes (i : nat) (s : AgentTraceStep) :
  Js.includes (Prompt.step i s) (thought s) = true
  /\ Js.includes (Prompt.step i s) (action s) = true
  /\ Js.includes (Prompt.step i s) (observation s) = true
  /\ forall r, reflection s = Some r -> Js.includes (Prompt.step i s) r = true.
Proof.
  unfold Prompt.step.
  split; [apply includes_piece; simpl; tauto|].
  split; [apply includes_piece; simpl; tauto|].
  split; [apply includes_piece; simpl; tauto|].
  intros r Hr. rewrite Hr. destruct r as [|c r].
  - apply includes_empty.
  - apply includes_piece. unfold Js.orElse, Js.truthy. simpl. tauto.
Qed.

Lemma result_quotes (i : nat) (r : SearchResult) :
  Js.includes (Prompt.result i r) (title r) = true
  /\ Js.includes (Prompt.result i r) (link r) = true
  /\ Js.includes (Prompt.result i r) (snippet r) = true.
Proof.
  unfold Prompt.result. repeat split; apply includes_piece; simpl; tauto.
Qed.

(** X12. The prompt of [constructPrompt] leaves nothing out: it contains
    the query, the title, link and snippet of every search result, the
    thought, action, observation and reflection of every trace step, and
    the previous context. *)
Theorem constructPrompt_quotes_everything (query : string)
        (searchResults : list SearchResult) (traceSteps : list AgentTraceStep)
        (previousContext : string) :
  let prompt := constructPrompt query searchResults traceSteps previousContext in
  Js.includes prompt query = true
  /\ (forall r, In r searchResults ->
        Js.includes prompt (title r) = true
        /\ Js.includes prompt (link r) = true
        /\ Js.includes prompt (snippet r) = true)
  /\ (forall s, In s traceSteps ->
        Js.includes prompt (thought s) = true
        /\ Js.includes prompt (action s) = true
        /\ Js.includes prompt (observation s) = true
        /\ forall r, reflection s = Some r -> Js.includes prompt r = true)
  /\ Js.includes prompt previousContext = true.
Proof.
  intros prompt. subst prompt. unfold constructPrompt.
  split; [apply includes_piece; simpl; tauto|].
  split; [|split].
  - intros r Hin.
    assert (Hlen : (0 <? length searchResults) = true)
      by (destruct searchResults; [contradiction | reflexivity]).
    rewrite Hlen.
    repeat split;
      (eapply includes_trans; [apply includes_piece; do 7 right; left; reflexivity|]);
      (eapply includes_trans; [apply includes_piece; do 2 right; left; reflexivity|]);
      apply (includes_rendered _ _ r); try exact Hin; intros i; apply result_quotes.
  - intros s Hin.
    assert (Hlen : (0 <? length traceSteps) = true)
      by (destruct traceSteps; [contradiction | reflexivity]).
    rewrite Hlen.
    split; [|split; [|split; [|intros r Hr]]];
      (eapply includes_trans; [apply includes_piece; do 9 right; left; reflexivity|]);
      (eapply includes_trans; [apply includes_piece; do 2 right; left; reflexivity|]);
      apply (includes_rendered _ _ s); try exact Hin; intros i;
      destruct (step_quotes i s) as (Ht & Ha & Ho & Hrf); auto.
  - destruct previousContext as [|c ctx].
    + apply includes_empty.
    + eapply includes_trans; [apply includes_piece; do 11 right; left; reflexivity|].
      cbn [Js.truthy]. apply includes_piece. simpl. tauto.
Qed.

(** X13. Every round starts with a refinement call whose prompt carries
    the original query and the whole array of steps as it is then, plan,
    search steps and analyses alike: nothing of the trace is left out of
    it, unlike in the final prompt. *)
Theorem round_sends_the_whole_trace (env : Env) (openai : OpenAI) (query : string)
        (w : World) :
  let run := researchRound env openai query w in
  exists prompt reply rest,
    since w (snd run) = EvChat Prompt.refinementSystem prompt reply :: rest
    /\ Js.includes prompt query = true
    /\ forall s, In s (trace w) ->
         Js.includes prompt (thought s) = true
         /\ Js.includes prompt (action s) = true
         /\ Js.includes prompt (observation s) = true
         /\ forall r, reflection s = Some r -> Js.includes prompt r = true.
Proof.
  intros run. subst run.
  destruct (researchRound env openai query w) as [r w'] eqn:E.
  apply researchRound_run in E. cbn [snd].
  exists (refinementPrompt query w), (refinementReply env query w).
  assert (Hev : exists rest, since w w' = refinementEvent env query w :: rest).
  { destruct E as [e He | content rs n evs rq Hr Hs Hm Hc
                   | content rs n evs e rq failures Hr Hs Hc Ha
                   | content rs n evs analysis rq analysisStep Hr Hs Hc Ha];
      eexists; apply since_app; cbn [events]; reflexivity. }
  destruct Hev as [rest Hev]. exists rest. split; [exact Hev|].
  unfold refinementPrompt, Prompt.refinement.
  split; [apply includes_piece; simpl; tauto|].
  intros s Hin.
  split; [|split; [|split; [|intros text Hr]]];
    (eapply includes_trans; [apply includes_piece; do 9 right; left; reflexivity|]);
    apply (includes_rendered _ _ s); try exact Hin; intros i;
    destruct (step_quotes i s) as (Ht & Ha & Ho & Hrf); auto.
Qed.

(** * Properties of the chat store *)

(** ** Keys *)

Lemma hexOnto_length (digits : nat) (n : N) (acc : string) :
  String.length (ChatStore.hexOnto digits n acc) = digits + String.length acc.
Proof.
  revert n acc. induction digits as [|d IH]; intros n acc; cbn [ChatStore.hexOnto];
    [reflexivity|].
  rewrite IH. cbn [String.length]. lia.
Qed.

Lemma uuid_length (n : N) : String.length (ChatStore.uuid n) = 36.
Proof.
  unfold ChatStore.uuid.
  repeat (rewrite hexOnto_length; cbn [String.length]). reflexivity.
Qed.

Lemma eqb_length (a b : string) :
  String.length a <> String.length b -> String.eqb a b = false.
Proof. intros H. apply String.eqb_neq. intros ->. now apply H. Qed.

Lemma long_keys_are_not_inherited (key : string) :
  String.length key = 36 -> existsb (String.eqb key) ChatStore.inheritedKeys = false.
Proof.
  intros H. unfold ChatStore.inheritedKeys. cbn [existsb].
  repeat (rewrite eqb_length by (rewrite H; vm_compute; discriminate)).
  reflexivity.
Qed.

Lemma inherited_keys_are_short (key : string) :
  In key ChatStore.inheritedKeys -> String.length key <> 36.
Proof.
  unfold ChatStore.inheritedKeys. cbn [In].
  intros H; repeat (destruct H as [<- | H]; [vm_compute; discriminate|]); contradiction.
Qed.

Lemma inherited_existsb (key : string) :
  In key ChatStore.inheritedKeys ->
  existsb (String.eqb key) ChatStore.inheritedKeys = true.
Proof.
  intros H. apply existsb_exists. exists key. split; [exact H | apply String.eqb_refl].
Qed.

(** ** Own properties *)

Lemma own_assign_same (key : string) (chat : Route.ChatHistoryEntry)
      (l : list (string * Route.ChatHistoryEntry)) :
  ChatStore.own key (ChatStore.assign key chat l) = Some chat.
Proof.
  induction l as [|[k c] l IH]; cbn [ChatStore.assign ChatStore.own].
  - now rewrite String.eqb_refl.
  - destruct (String.eqb k key) eqn:E; cbn [ChatStore.own]; rewrite E; auto.
Qed.

Lemma own_assign_other (key key' : string) (chat : Route.ChatHistoryEntry)
      (l : list (string * Route.ChatHistoryEntry)) :
  key' <> key ->
  ChatStore.own key' (ChatStore.assign key chat l) = ChatStore.own key' l.
Proof.
  intros Hne. induction l as [|[k c] l IH]; cbn [ChatStore.assign ChatStore.own].
  - destruct (String.eqb key key') eqn:E; [|reflexivity].
    apply String.eqb_eq in E. now subst.
  - destruct (String.eqb k key) eqn:E; cbn [ChatStore.own].
    + apply String.eqb_eq in E. subst k.
      destruct (String.eqb key key') eqn:E'; [|reflexivity].
      apply String.eqb_eq in E'. now subst.
    + now rewrite IH.
Qed.

Lemma own_In (key : string) (chat : Route.ChatHistoryEntry)
      (l : list (string * Route.ChatHistoryEntry)) :
  ChatStore.own key l = Some chat -> In (key, chat) l.
Proof.
  induction l as [|[k c] l IH]; cbn [ChatStore.own]; [discriminate|].
  destruct (String.eqb k key) eqn:E.
  - apply String.eqb_eq in E. intros [= ->]. subst. now left.
  - intros H. right. now apply IH.
Qed.

Lemma assign_keys (key : string) (chat : Route.ChatHistoryEntry)
      (l : list (string * Route.ChatHistoryEntry)) :
  map fst (ChatStore.assign key chat l)
  = match ChatStore.own key l with
    | Some _ => map fst l
    | None => map fst l ++ [key]
    end.
Proof.
  induction l as [|[k c] l IH]; cbn [ChatStore.assign ChatStore.own]; [reflexivity|].
  destruct (String.eqb k key) eqn:E; cbn [map fst]; [reflexivity|].
  rewrite IH. now destruct (ChatStore.own key l).
Qed.

Lemma own_None (key : string) (l : list (string * Route.ChatHistoryEntry)) :
  ChatStore.own key l = None -> ~ In key (map fst l).
Proof.
  induction l as [|[k c] l IH]; cbn [ChatStore.own map fst In]; [tauto|].
  destruct (String.eqb k key) eqn:E; [discriminate|].
  apply String.eqb_neq in E. intros H [Hk | Hin]; [contradiction | now apply IH].
Qed.

Lemma assign_NoDup (key : string) (chat : Route.ChatHistoryEntry)
      (l : list (string * Route.ChatHistoryEntry)) :
  NoDup (map fst l) -> NoDup (map fst (ChatStore.assign key chat l)).
Proof.
  intros H. rewrite assign_keys. destruct (ChatStore.own key l) eqn:E; [exact H|].
  apply own_None in E. induction (map fst l) as [|k keys IH]; cbn [app].
  - constructor; [tauto | constructor].
  - inversion H as [|k' keys' Hk Hkeys]; subst. constructor.
    + rewrite in_app_iff. cbn [In]. intros [Hin | [-> | []]]; [contradiction|].
      apply E. now left.
    + apply IH; [exact Hkeys|]. intros Hin. apply E. now right.
Qed.

Lemma assign_Forall (P : string * Route.ChatHistoryEntry -> Prop) (key : string)
      (chat : Route.ChatHistoryEntry) (l : list (string * Route.ChatHistoryEntry)) :
  Forall P l -> P (key, chat) -> Forall P (ChatStore.assign key chat l).
Proof.
  intros Hall Hnew. induction Hall as [|[k c] l Hc Hl IH]; cbn [ChatStore.assign].
  - now constructor.
  - destruct (String.eqb k key) eqn:E.
    + apply String.eqb_eq in E. subst k. now constructor.
    + now constructor.
Qed.

Lemma lookup_Entry (key : string) (st : ChatStore.Store) (chat : Route.ChatHistoryEntry) :
  ChatStore.lookup key st = ChatStore.Entry chat <->
  ChatStore.own key (ChatStore.chats st) = Some chat.
Proof.
  unfold ChatStore.lookup. destruct (ChatStore.own key (ChatStore.chats st)) as [c|].
  - split; intros [= ->]; reflexivity.
  - destruct (existsb _ _); split; discriminate.
Qed.

(** ** The invariant of the store *)

Lemma wellFormed_lookup (st : ChatStore.Store) (key : string)
      (chat : Route.ChatHistoryEntry) :
  wellFormed st -> ChatStore.lookup key st = ChatStore.Entry chat ->
  wellFormedChat key chat.
Proof.
  intros [_ Hall] H. apply lookup_Entry, own_In in H.
  rewrite Forall_forall in Hall. exact (Hall _ H).
Qed.

Lemma withMessage_wellFormed (key : string) (chat : Route.ChatHistoryEntry)
      (message : Route.ChatMessage) :
  wellFormedChat key chat -> consistentMessage message ->
  wellFormedChat key (withMessage chat message).
Proof.
  intros (Hid & Hlen & Hmsgs & first & rest & Hm & Hu & Hc & Ht & Hl) Hnew.
  unfold wellFormedChat, withMessage. cbn [Route.id Route.messages Route.chatTitle
                                             Route.createdAt Route.updatedAt].
  split; [exact Hid|]. split; [exact Hlen|]. split.
  - apply Forall_app. split; [exact Hmsgs | now constructor].
  - exists first, (rest ++ [message]). rewrite Hm.
    split; [reflexivity|]. split; [exact Hu|]. split; [exact Hc|]. split; [exact Ht|].
    now rewrite last_last.
Qed.

Lemma StoreStep_wellFormed (sys : ChatStore.Sys) (st st' : ChatStore.Store) :
  wellFormed st -> StoreStep sys st st' -> wellFormed st'.
Proof.
  intros Hwf Hstep.
  assert (Hpush : forall chatId chat message,
             ChatStore.lookup chatId st = ChatStore.Entry chat ->
             consistentMessage message ->
             forall u c,
               wellFormed (ChatStore.mkStore
                             (ChatStore.assign chatId (withMessage chat message)
                                               (ChatStore.chats st)) u c)).
  { intros chatId chat message Hl Hm u c. destruct Hwf as [Hnd Hall].
    split; cbn [ChatStore.chats]; [now apply assign_NoDup|].
    apply assign_Forall; [exact Hall|]. cbn [fst snd].
    apply withMessage_wellFormed; [|exact Hm].
    now apply (wellFormed_lookup st); [split|]. }
  destruct Hstep as [query st | chatId message st | chatId response st
                     | chatId response st | st].
  - destruct Hwf as [Hnd Hall]. unfold ChatStore.createChat. cbn [snd].
    split; cbn [ChatStore.chats]; [now apply assign_NoDup|].
    apply assign_Forall; [exact Hall|]. cbn [fst snd].
    unfold wellFormedChat. cbn [Route.id Route.messages Route.chatTitle
                                  Route.createdAt Route.updatedAt].
    split; [reflexivity|]. split; [apply uuid_length|]. split.
    + constructor; [reflexivity | constructor].
    + eexists _, []. repeat split.
  - unfold ChatStore.addUserMessageToChat.
    destruct (ChatStore.lookup chatId st) as [chat| |] eqn:E; cbn [snd];
      [|exact Hwf|exact Hwf].
    apply (Hpush chatId chat (Route.mkChatMessage _ _ message true None) E).
    reflexivity.
  - unfold ChatStore.addAgentResponseToChat.
    destruct (ChatStore.lookup chatId st) as [chat| |] eqn:E; cbn [snd];
      [|exact Hwf|exact Hwf].
    apply (Hpush chatId chat
             (Route.mkChatMessage _ _ (finalOutput response) false (Some response)) E).
    now exists response.
  - unfold ChatStore.updateChat, ChatStore.addAgentResponseToChat.
    destruct (ChatStore.lookup chatId st) as [chat| |] eqn:E; cbn [snd];
      [|exact Hwf|exact Hwf].
    apply (Hpush chatId chat
             (Route.mkChatMessage _ _ (finalOutput response) false (Some response)) E).
    now exists response.
  - split; cbn; constructor.
Qed.

Lemma Reachable_wellFormed (sys : ChatStore.Sys) (st : ChatStore.Store) :
  Reachable sys st -> wellFormed st.
Proof.
  induction 1 as [|st st' _ IH Hstep].
  - split; cbn; constructor.
  - exact (StoreStep_wellFormed sys st st' IH Hstep).
Qed.

(** X14. Every store that the functions of the module can build from the
    empty one is well formed: no key occurs twice; every chat is stored
    under its own id, a UUID; its first message is the user's question
    that gave the chat its title, with the time of creation; the time of
    its last message is the time of its last update; user messages carry
    no response and agent messages carry the response whose final output
    is their content. *)
Theorem reachable_stores_are_well_formed (sys : ChatStore.Sys) (st : ChatStore.Store) :
  Reachable sys st -> wellFormed st.
Proof.
  intros Hreach. induction Hreach as [|st st' _ IH Hstep].
  - split; [apply NoDup_nil | apply Forall_nil].
  - destruct Hstep as [query st | chatId message st | chatId response st
                       | chatId response st | st].
    + apply (StoreStep_wellFormed sys st); [exact IH | apply Created].
    + apply (StoreStep_wellFormed sys st); [exact IH | apply UserMessageAdded].
    + apply (StoreStep_wellFormed sys st); [exact IH | apply AgentResponseAdded].
    + apply (StoreStep_wellFormed sys st); [exact IH | apply Updated].
    + apply (StoreStep_wellFormed sys st); [exact IH | apply Cleared].
Qed.

Lemma reachable_stores_are_well_formed_witness : wellFormed Chats.opened.
Proof.
  apply (reachable_stores_are_well_formed Chats.counting).
  apply Stepped with ChatStore.chatStore; [apply Loaded | apply Created].
Defined.

(** ** Reading back what was written *)

Lemma lookup_assign_same (key : string) (chat : Route.ChatHistoryEntry)
      (st : ChatStore.Store) (u c : nat) :
  ChatStore.lookup key
    (ChatStore.mkStore (ChatStore.assign key chat (ChatStore.chats st)) u c)
  = ChatStore.Entry chat.
Proof. unfold ChatStore.lookup. cbn [ChatStore.chats]. now rewrite own_assign_same. Qed.

Lemma lookup_assign_other (key key' : string) (chat : Route.ChatHistoryEntry)
      (st : ChatStore.Store) (u c : nat) :
  key' <> key ->
  ChatStore.lookup key'
    (ChatStore.mkStore (ChatStore.assign key chat (ChatStore.chats st)) u c)
  = ChatStore.lookup key' st.
Proof.
  intros H. unfold ChatStore.lookup. cbn [ChatStore.chats]. now rewrite own_assign_other.
Qed.

Lemma getChat_lookup (key : string) (st : ChatStore.Store) :
  ChatStore.getChat key st = ChatStore.lookup key st.
Proof. unfold ChatStore.getChat. now destruct (ChatStore.lookup key st). Qed.

(** The loop of [getLatestUserMessage] stays inside the array, and finds
    the last message of the user. *)
Lemma latestUser_spec (messages : list Route.ChatMessage) (i : nat) :
  i <= length messages ->
  ChatStore.latestUser messages i
  = Ok (option_map Route.content (find Route.isUser (rev (firstn i messages)))).
Proof.
  induction i as [|i IH]; intros Hi; cbn [ChatStore.latestUser]; [reflexivity|].
  destruct (nth_error messages i) as [message|] eqn:E.
  - assert (Hsplit : firstn (S i) messages = firstn i messages ++ [message]).
    { clear IH. revert messages Hi E. induction i as [|i IHi]; intros [|m ms] Hi E;
        try discriminate; cbn in E |- *.
      - now injection E as ->.
      - f_equal. apply IHi; [cbn in Hi; lia | exact E]. }
    rewrite Hsplit, rev_app_distr. cbn [rev app find].
    destruct (Route.isUser message); [reflexivity | apply IH; lia].
  - apply nth_error_None in E. lia.
Qed.

(** X15. A chat that was just created is read back as it was written: under
    the id that [createChat] returns there is a chat whose title is the
    query and whose only message is the user's query; the latest user
    message of that chat is the query; it has no conversation context yet;
    and what the store gives for any other key is unchanged. *)
Theorem createChat_round_trip (sys : ChatStore.Sys) (query : string)
        (st : ChatStore.Store) :
  let chatId := fst (ChatStore.createChat sys query st) in
  let st' := snd (ChatStore.createChat sys query st) in
  (exists messageId timestamp,
      ChatStore.getChat chatId st'
      = ChatStore.Entry
          (Route.mkChatHistoryEntry chatId query timestamp timestamp
             [Route.mkChatMessage messageId timestamp query true None]))
  /\ ChatStore.getLatestUserMessage chatId st' = Ok (Some query)
  /\ Ask.conversationContext chatId st' = Ok EmptyString
  /\ forall key, key <> chatId -> ChatStore.getChat key st' = ChatStore.getChat key st.
Proof.
  intros chatId st'. subst chatId st'. unfold ChatStore.createChat. cbn [fst snd].
  split; [|split; [|split]].
  - eexists _, _. rewrite getChat_lookup. apply lookup_assign_same.
  - unfold ChatStore.getLatestUserMessage. rewrite lookup_assign_same. reflexivity.
  - unfold Ask.conversationContext. rewrite getChat_lookup, lookup_assign_same.
    reflexivity.
  - intros key Hne. rewrite !getChat_lookup. now apply lookup_assign_other.
Qed.

Lemma reachable_inherited (sys : ChatStore.Sys) (st : ChatStore.Store) (key : string) :
  Reachable sys st -> In key ChatStore.inheritedKeys ->
  ChatStore.lookup key st = ChatStore.Inherited.
Proof.
  intros Hreach Hin. apply Reachable_wellFormed in Hreach.
  unfold ChatStore.lookup.
  destruct (ChatStore.own key (ChatStore.chats st)) as [chat|] eqn:E.
  - exfalso. apply (inherited_keys_are_short key Hin).
    assert (Hl : ChatStore.lookup key st = ChatStore.Entry chat) by now apply lookup_Entry.
    now destruct (wellFormed_lookup st key chat Hreach Hl) as (_ & Hlen & _).
  - now rewrite inherited_existsb.
Qed.

(** X16. The store is a plain object, so the names of the properties of
    [Object.prototype] are taken for chats: in any store that can be
    built, such a chat id passes the test of the functions that add a
    message, which then fail on the missing array after a UUID and a time
    were drawn, and leave the chats as they were; reading the latest user
    message fails as well; and [processQuery] fails on it after its
    search, before any call of the model. *)
Theorem inherited_names_are_taken_for_chats (env : Env) (sys : ChatStore.Sys)
        (st : ChatStore.Store) (chatId message query : string)
        (response : AgentResponse) (w : World) :
  Reachable sys st ->
  In chatId ChatStore.inheritedKeys ->
  let used :=
    ChatStore.mkStore (ChatStore.chats st) (S (ChatStore.uuidCalls st))
                      (S (ChatStore.clockCalls st)) in
  ChatStore.getChat chatId st = ChatStore.Inherited
  /\ ChatStore.addUserMessageToChat sys chatId message st
     = (Throw ChatStore.pushError, used)
  /\ ChatStore.addAgentResponseToChat sys chatId response st
     = (Throw ChatStore.pushError, used)
  /\ ChatStore.getLatestUserMessage chatId st = Throw ChatStore.lengthError
  /\ Ask.processQuery env sys query chatId (Ask.mkServer w st)
     = (Throw ChatStore.lengthError,
        Ask.mkServer (snd (performSearch env query w)) st).
Proof.
  intros Hreach Hin used. subst used.
  pose proof (reachable_inherited sys st chatId Hreach Hin) as Hl.
  split; [now rewrite getChat_lookup|].
  split; [unfold ChatStore.addUserMessageToChat; now rewrite Hl|].
  split; [unfold ChatStore.addAgentResponseToChat; now rewrite Hl|].
  split; [unfold ChatStore.getLatestUserMessage; now rewrite Hl|].
  unfold Ask.processQuery. cbn [Ask.world Ask.store].
  destruct (performSearch_frame env query w) as (results & n & evs & Hrun & _).
  rewrite Hrun. cbn [snd].
  unfold Ask.conversationContext. now rewrite getChat_lookup, Hl.
Qed.

Lemma inherited_names_are_taken_for_chats_witness :
  ChatStore.addUserMessageToChat Chats.counting "toString" Examples.question Chats.opened
  = (Throw ChatStore.pushError,
     ChatStore.mkStore (ChatStore.chats Chats.opened)
                       (S (ChatStore.uuidCalls Chats.opened))
                       (S (ChatStore.clockCalls Chats.opened))).
Proof.
  assert (Hreach : Reachable Chats.counting Chats.opened)
    by (apply Stepped with ChatStore.chatStore; [apply Loaded | apply Created]).
  assert (Hin : In "toString" ChatStore.inheritedKeys) by (cbn; tauto).
  exact (proj1 (proj2 (inherited_names_are_taken_for_chats
                         Examples.offline Chats.counting Chats.opened "toString"
                         Examples.question Examples.question
                         (mkAgentResponse [] EmptyString) World0 Hreach Hin))).
Defined.

(** X17. A message of the user that is added to an existing chat is read
    back: it is the last message of that chat and its latest user
    message, the chat is updated at the time of the message and keeps its
    id, title and time of creation; the other chats and the order of the
    chats in the store are unchanged. *)
Theorem addUserMessageToChat_round_trip (sys : ChatStore.Sys) (st : ChatStore.Store)
        (chatId message : string) (chat : Route.ChatHistoryEntry) :
  ChatStore.getChat chatId st = ChatStore.Entry chat ->
  let st' := snd (ChatStore.addUserMessageToChat sys chatId message st) in
  (exists messageId timestamp,
      ChatStore.getChat chatId st'
      = ChatStore.Entry
          (withMessage chat (Route.mkChatMessage messageId timestamp message true None)))
  /\ ChatStore.getLatestUserMessage chatId st' = Ok (Some message)
  /\ (forall key, key <> chatId -> ChatStore.getChat key st' = ChatStore.getChat key st)
  /\ map fst (ChatStore.chats st') = map fst (ChatStore.chats st).
Proof.
  rewrite getChat_lookup. intros Hl st'. subst st'.
  unfold ChatStore.addUserMessageToChat. rewrite Hl. cbn [snd].
  split; [|split; [|split]].
  - eexists _, _. rewrite getChat_lookup. apply lookup_assign_same.
  - unfold ChatStore.getLatestUserMessage. rewrite lookup_assign_same.
    cbn [Route.messages]. rewrite latestUser_spec by lia.
    rewrite firstn_all, rev_app_distr. reflexivity.
  - intros key Hne. rewrite !getChat_lookup. now apply lookup_assign_other.
  - cbn [ChatStore.chats]. rewrite assign_keys.
    apply lookup_Entry in Hl. now rewrite Hl.
Qed.

Lemma addUserMessageToChat_round_trip_witness :
  ChatStore.getLatestUserMessage Chats.openedId
    (snd (ChatStore.addUserMessageToChat Chats.counting Chats.openedId "and then?"
            Chats.opened))
  = Ok (Some "and then?").
Proof.
  match eval vm_compute in (ChatStore.getChat Chats.openedId Chats.opened) with
  | ChatStore.Entry ?chat =>
      exact (proj1 (proj2 (addUserMessageToChat_round_trip
                             Chats.counting Chats.opened Chats.openedId "and then?" chat
                             ltac:(vm_compute; reflexivity))))
  end.
Defined.

(** X18. On an existing chat [getLatestUserMessage] does not fail: its
    loop stays inside the array and returns the content of the last
    message that is the user's, or nothing when there is none.  In a
    store that can be built there is always one. *)
Theorem getLatestUserMessage_spec (sys : ChatStore.Sys) (st : ChatStore.Store)
        (chatId : string) (chat : Route.ChatHistoryEntry) :
  ChatStore.getChat chatId st = ChatStore.Entry chat ->
  ChatStore.getLatestUserMessage chatId st
  = Ok (option_map Route.content (find Route.isUser (rev (Route.messages chat))))
  /\ (Reachable sys st ->
      exists message, ChatStore.getLatestUserMessage chatId st = Ok (Some message)).
Proof.
  rewrite getChat_lookup. intros Hl.
  assert (Hspec : ChatStore.getLatestUserMessage chatId st
                  = Ok (option_map Route.content
                          (find Route.isUser (rev (Route.messages chat))))).
  { unfold ChatStore.getLatestUserMessage. rewrite Hl.
    rewrite latestUser_spec by lia. now rewrite firstn_all. }
  split; [exact Hspec|].
  intros Hreach. apply Reachable_wellFormed in Hreach.
  destruct (wellFormed_lookup st chatId chat Hreach Hl)
    as (_ & _ & _ & first & rest & Hm & Hu & _).
  rewrite Hspec, Hm. cbn [rev].
  destruct (find Route.isUser (rev rest ++ [first])) as [found|] eqn:E.
  - now exists (Route.content found).
  - assert (Hf : Route.isUser first = false)
      by (apply (find_none _ _ E first), in_or_app; right; now left).
    congruence.
Qed.

Lemma getLatestUserMessage_spec_witness :
  exists message,
    ChatStore.getLatestUserMessage Chats.openedId Chats.opened = Ok (Some message).
Proof.
  match eval vm_compute in (ChatStore.getChat Chats.openedId Chats.opened) with
  | ChatStore.Entry ?chat =>
      apply (proj2 (getLatestUserMessage_spec
                      Chats.counting Chats.opened Chats.openedId chat
                      ltac:(vm_compute; reflexivity)));
      apply Stepped with ChatStore.chatStore; [apply Loaded | apply Created]
  end.
Defined.

(** X19. Adding an agent response to any chat changes the latest user
    message of no chat. *)
Theorem agent_responses_keep_the_latest_user_message (sys : ChatStore.Sys)
        (st : ChatStore.Store) (chatId key : string) (response : AgentResponse) :
  ChatStore.getLatestUserMessage key
    (snd (ChatStore.addAgentResponseToChat sys chatId response st))
  = ChatStore.getLatestUserMessage key st.
Proof.
  unfold ChatStore.addAgentResponseToChat.
  destruct (ChatStore.lookup chatId st) as [chat| |] eqn:Hl; cbn [snd];
    [|reflexivity|reflexivity].
  unfold ChatStore.getLatestUserMessage.
  destruct (String.eqb key chatId) eqn:E.
  - apply String.eqb_eq in E. subst key. rewrite lookup_assign_same, Hl.
    cbn [Route.messages]. rewrite !latestUser_spec by lia.
    rewrite !firstn_all, rev_app_distr. reflexivity.
  - apply String.eqb_neq in E. now rewrite lookup_assign_other.
Qed.

(** ** The list of chats *)

Lemma insertByUpdate_perm (chat : Route.ChatHistoryEntry)
      (l : list Route.ChatHistoryEntry) :
  Permutation (ChatStore.insertByUpdate chat l) (chat :: l).
Proof.
  induction l as [|other l IH]; cbn [ChatStore.insertByUpdate]; [reflexivity|].
  destruct (Route.updatedAt other <=? Route.updatedAt chat); [reflexivity|].
  rewrite IH. apply perm_swap.
Qed.

Lemma insertByUpdate_sorted (chat : Route.ChatHistoryEntry)
      (l : list Route.ChatHistoryEntry) :
  StronglySorted (fun a b => Route.updatedAt b <= Route.updatedAt a) l ->
  StronglySorted (fun a b => Route.updatedAt b <= Route.updatedAt a)
                 (ChatStore.insertByUpdate chat l).
Proof.
  induction 1 as [|other l Hl IH Hall]; cbn [ChatStore.insertByUpdate].
  - constructor; constructor.
  - destruct (Route.updatedAt other <=? Route.updatedAt chat) eqn:E.
    + apply Nat.leb_le in E. constructor; [now constructor|].
      constructor; [exact E|].
      eapply Forall_impl; [|exact Hall]. cbn. intros; lia.
    + apply Nat.leb_gt in E. constructor; [exact IH|].
      refine (Permutation_Forall (Permutation_sym (insertByUpdate_perm chat l)) _).
      constructor; [lia | exact Hall].
Qed.

Lemma insertByUpdate_stable (t : nat) (chat : Route.ChatHistoryEntry)
      (l : list Route.ChatHistoryEntry) :
  filter (fun c => Route.updatedAt c =? t) (ChatStore.insertByUpdate chat l)
  = filter (fun c => Route.updatedAt c =? t) (chat :: l).
Proof.
  induction l as [|other l IH]; cbn [ChatStore.insertByUpdate]; [reflexivity|].
  destruct (Route.updatedAt other <=? Route.updatedAt chat) eqn:E; [reflexivity|].
  apply Nat.leb_gt in E. cbn [filter] in IH |- *. rewrite IH.
  destruct (Route.updatedAt other =? t) eqn:Eo; [|reflexivity].
  apply Nat.eqb_eq in Eo.
  destruct (Route.updatedAt chat =? t) eqn:Ec; [|reflexivity].
  apply Nat.eqb_eq in Ec. lia.
Qed.

(** X20. [getAllChats] returns every chat of the store once, the most
    recently updated first; chats updated at the same time stay in the
    order in which they were created. *)
Theorem getAllChats_sorted (st : ChatStore.Store) :
  Permutation (ChatStore.getAllChats st) (map snd (ChatStore.chats st))
  /\ StronglySorted (fun a b => Route.updatedAt b <= Route.updatedAt a)
                    (ChatStore.getAllChats st)
  /\ forall t,
       filter (fun c => Route.updatedAt c =? t) (ChatStore.getAllChats st)
       = filter (fun c => Route.updatedAt c =? t) (map snd (ChatStore.chats st)).
Proof.
  unfold ChatStore.getAllChats.
  induction (map snd (ChatStore.chats st)) as [|chat l (Hp & Hs & Hf)]; cbn [fold_right].
  - split; [reflexivity|]. split; [constructor | reflexivity].
  - split; [|split].
    + rewrite insertByUpdate_perm. now constructor.
    + now apply insertByUpdate_sorted.
    + intros t. rewrite insertByUpdate_stable. cbn [filter]. now rewrite Hf.
Qed.

(** ** The store and the processing of a query *)

Lemma conversationContext_own (chatId : string) (st : ChatStore.Store) :
  ChatStore.getChat chatId st <> ChatStore.Inherited ->
  Ask.conversationContext chatId st
  = Ok (SpecReading.conversationContext
          (fun key => ChatStore.own key (ChatStore.chats st)) chatId).
Proof.
  unfold Ask.conversationContext, SpecReading.conversationContext.
  rewrite getChat_lookup. unfold ChatStore.lookup.
  destruct (ChatStore.own chatId (ChatStore.chats st)) as [chat|]; [reflexivity|].
  destruct (existsb _ _); [contradiction | reflexivity].
Qed.

Lemma addAgentResponseToChat_returns (sys : ChatStore.Sys) (chatId : string)
      (response : AgentResponse) (st : ChatStore.Store) :
  ChatStore.getChat chatId st <> ChatStore.Inherited ->
  fst (ChatStore.addAgentResponseToChat sys chatId response st) = Ok tt.
Proof.
  rewrite getChat_lookup. unfold ChatStore.addAgentResponseToChat.
  destruct (ChatStore.lookup chatId st); [reflexivity | contradiction | reflexivity].
Qed.

(** X21. [processQuery] returns what the reading of the store as a plain
    map from chat ids to chats makes it return, and leaves the same world,
    as long as the chat id is not the name of an inherited property. *)
Theorem processQuery_over_the_store (env : Env) (sys : ChatStore.Sys)
        (query chatId : string) (sv : Ask.Server) :
  ChatStore.getChat chatId (Ask.store sv) <> ChatStore.Inherited ->
  let run := Ask.processQuery env sys query chatId sv in
  let chatOf := fun key => ChatStore.own key (ChatStore.chats (Ask.store sv)) in
  fst run = fst (SpecReading.processQuery env chatOf query chatId (Ask.world sv))
  /\ Ask.world (snd run)
     = snd (SpecReading.processQuery env chatOf query chatId (Ask.world sv)).
Proof.
  intros Hown run chatOf. subst run chatOf.
  unfold Ask.processQuery, SpecReading.processQuery, bind, ret.
  destruct (performSearch env query (Ask.world sv)) as [[searchResults|e] w1];
    [|split; reflexivity].
  rewrite (conversationContext_own chatId (Ask.store sv) Hown).
  destruct (generateResearchResponse env query searchResults _ w1)
    as [[agentResponse|e] w2]; [|split; reflexivity].
  pose proof (addAgentResponseToChat_returns sys chatId agentResponse (Ask.store sv) Hown)
    as Hadd.
  destruct (ChatStore.addAgentResponseToChat sys chatId agentResponse (Ask.store sv))
    as [[[]|e] st']; cbn [fst] in Hadd; [|discriminate].
  split; reflexivity.
Qed.

Lemma processQuery_over_the_store_witness :
  fst (Ask.processQuery Examples.researching Chats.counting Examples.question
         Chats.openedId (Ask.mkServer World0 Chats.opened))
  = fst (SpecReading.processQuery Examples.researching
           (fun key => ChatStore.own key (ChatStore.chats Chats.opened))
           Examples.question Chats.openedId World0).
Proof.
  apply (processQuery_over_the_store Examples.researching Chats.counting
           Examples.question Chats.openedId (Ask.mkServer World0 Chats.opened)).
  vm_compute. discriminate.
Defined.

(** X22. [processQuery] writes to the store only when it returns: the
    response that it returns is then the last message of the chat, an
    agent message whose content is the final output, and the chat is
    updated at the time of that message; for a chat id that the store does
    not know, nothing is written.  When it throws, the store is as it
    was. *)
Theorem processQuery_records_the_answer (env : Env) (sys : ChatStore.Sys)
        (query chatId : string) (sv : Ask.Server) :
  let run := Ask.processQuery env sys query chatId sv in
  (forall returned response,
      fst run = Ok (returned, response) ->
      returned = chatId
      /\ match ChatStore.getChat chatId (Ask.store sv) with
         | ChatStore.Entry chat =>
             exists messageId timestamp,
               ChatStore.getChat chatId (Ask.store (snd run))
               = ChatStore.Entry
                   (withMessage chat
                      (Route.mkChatMessage messageId timestamp (finalOutput response)
                                           false (Some response)))
         | _ => Ask.store (snd run) = Ask.store sv
         end)
  /\ (forall e, fst run = Throw e -> Ask.store (snd run) = Ask.store sv).
Proof.
  intros run. subst run. unfold Ask.processQuery.
  destruct (performSearch env query (Ask.world sv)) as [[searchResults|e] w1];
    [|split; [discriminate | reflexivity]].
  unfold Ask.conversationContext. rewrite !getChat_lookup.
  destruct (ChatStore.lookup chatId (Ask.store sv)) as [chat| |] eqn:Hl;
    [| split; [discriminate | reflexivity] |].
  - destruct (generateResearchResponse env query searchResults _ w1)
      as [[agentResponse|e] w2]; [|split; [discriminate | reflexivity]].
    unfold ChatStore.addAgentResponseToChat. rewrite Hl. cbn [fst snd Ask.store].
    split; [|discriminate].
    intros returned response [= <- <-]. split; [reflexivity|].
    eexists _, _. apply lookup_assign_same.
  - destruct (generateResearchResponse env query searchResults _ w1)
      as [[agentResponse|e] w2]; [|split; [discriminate | reflexivity]].
    unfold ChatStore.addAgentResponseToChat. rewrite Hl. cbn [fst snd Ask.store].
    split; [|discriminate].
    intros returned response [= <- <-]. split; reflexivity.
Qed.

Lemma sliceLast_snoc {A : Type} (n : nat) (l : list A) (x : A) :
  Js.sliceLast (S n) (l ++ [x]) = Js.sliceLast n l ++ [x].
Proof.
  unfold Js.sliceLast. rewrite length_app, skipn_app. cbn [length].
  replace (length l + 1 - S n) with (length l - n) by lia.
  replace (length l - n - length l) with 0 by lia. reflexivity.
Qed.

(** X23. The handler adds the question to the chat before the query is
    processed, so the conversation context of a follow-up question ends
    with that very question, after the lines of the 5 messages before it
    at most; the first question of a chat has no context. *)
Theorem follow_up_context_ends_with_the_question (sys : ChatStore.Sys)
        (st : ChatStore.Store) (chatId query : string) (chat : Route.ChatHistoryEntry) :
  Reachable sys st ->
  ChatStore.getChat chatId st = ChatStore.Entry chat ->
  Ask.conversationContext chatId
    (snd (ChatStore.addUserMessageToChat sys chatId query st))
  = Ok (Js.join (Js.nl ++ Js.nl)
          (map contextLine (Js.sliceLast 5 (Route.messages chat))
           ++ [Js.tpl ["User: "; query]])).
Proof.
  intros Hreach. rewrite getChat_lookup. intros Hl.
  apply Reachable_wellFormed in Hreach.
  destruct (wellFormed_lookup st chatId chat Hreach Hl)
    as (_ & _ & _ & first & rest & Hm & _).
  unfold ChatStore.addUserMessageToChat. rewrite Hl. cbn [snd].
  set (userMessage := Route.mkChatMessage _ _ query true None).
  unfold Ask.conversationContext. rewrite getChat_lookup, lookup_assign_same.
  cbn [Route.messages]. rewrite sliceLast_snoc, map_app.
  assert (Hlen : 1 < length (Route.messages chat ++ [userMessage]))
    by (rewrite length_app, Hm; cbn [length]; lia).
  apply Nat.ltb_lt in Hlen. rewrite Hlen. reflexivity.
Qed.

Lemma follow_up_context_ends_with_the_question_witness :
  Ask.conversationContext Chats.openedId
    (snd (ChatStore.addUserMessageToChat Chats.counting Chats.openedId "and then?"
            Chats.opened))
  = Ok (Js.join (Js.nl ++ Js.nl)
          [Js.tpl ["User: "; Examples.question]; Js.tpl ["User: "; "and then?"]]).
Proof.
  match eval vm_compute in (ChatStore.getChat Chats.openedId Chats.opened) with
  | ChatStore.Entry ?chat =>
      exact (follow_up_context_ends_with_the_question
               Chats.counting Chats.opened Chats.openedId "and then?" chat
               ltac:(apply Stepped with ChatStore.chatStore; [apply Loaded | apply Created])
               ltac:(vm_compute; reflexivity))
  end.
Defined.

(** ** The context and the cost of a request *)

Lemma finalPrompt_quotes (query : string) (traceSteps : list AgentTraceStep)
      (previousContext prompt : string) :
  finalPrompt query traceSteps previousContext = Ok prompt ->
  Js.includes prompt query = true /\ Js.includes prompt previousContext = true.
Proof.
  unfold finalPrompt. destruct (renderSteps 0 (essentialSteps traceSteps)) as [rendered|e];
    [|discriminate].
  intros [= <-]. unfold Prompt.final. split; [apply includes_piece; simpl; tauto|].
  destruct previousContext as [|c ctx]; [apply includes_empty|].
  eapply includes_trans; [apply includes_piece; do 10 right; left; reflexivity|].
  cbn [Js.truthy]. apply includes_piece. simpl. tauto.
Qed.

Lemma planning_quotes (query : string) (searchResults : list SearchResult)
      (previousContext : string) :
  let prompt := Prompt.planning query searchResults previousContext in
  Js.includes prompt query = true
  /\ Js.includes prompt previousContext = true
  /\ forall r, In r searchResults ->
       Js.includes prompt (title r) = true /\ Js.includes prompt (link r) = true.
Proof.
  intros prompt. subst prompt. unfold Prompt.planning.
  split; [apply includes_piece; simpl; tauto|]. split.
  - destruct previousContext as [|c ctx]; [apply includes_empty|].
    eapply includes_trans; [apply includes_piece; do 13 right; left; reflexivity|].
    cbn [Js.truthy]. apply includes_piece. simpl. tauto.
  - intros r Hin.
    split;
      (eapply includes_trans; [apply includes_piece; do 9 right; left; reflexivity|]);
      apply (includes_rendered _ _ r); try exact Hin; intros i;
      apply includes_piece; simpl; tauto.
Qed.

(** X24. An invocation that returns starts with the planning call and ends
    with the synthesis call, and both prompts quote the query and the
    previous context; the planning prompt also quotes the title and the
    link of every initial search result. *)
Theorem context_reaches_plan_and_synthesis (env : Env) (query : string)
        (initialSearchResults : list SearchResult) (previousContext : string)
        (w : World) (response : AgentResponse) (w' : World) :
  generateResearchResponse env query initialSearchResults previousContext w
  = (Ok response, w') ->
  exists plan planReply middle final finalReply,
    since w w'
    = EvChat Prompt.planningSystem plan planReply
      :: middle ++ [EvChat Prompt.finalSystem final finalReply]
    /\ Js.includes plan query = true
    /\ Js.includes plan previousContext = true
    /\ (forall r, In r initialSearchResults ->
          Js.includes plan (title r) = true /\ Js.includes plan (link r) = true)
    /\ Js.includes final query = true
    /\ Js.includes final previousContext = true.
Proof.
  intros Hrun. apply generateResearchResponse_run in Hrun.
  inversion Hrun as [|key r w0 Hkey HP]; subst.
  inversion HP as [|content rr w2 r w0 prompt reply ER Hloop HS]; subst.
  pose proof (RoundsRun_calls _ _ _ _ _ _ Hloop) as (evs & E & _).
  cbn [events] in E.
  inversion HS as [ | | p w3 reply' EP Hr]; subst.
  exists prompt, reply, evs, p, reply'.
  split.
  - apply since_app. cbn [events]. rewrite E, <- !app_assoc. reflexivity.
  - destruct (planning_quotes query initialSearchResults previousContext)
      as (Hq & Hc & Hres).
    destruct (finalPrompt_quotes _ _ _ _ EP) as [Hfq Hfc].
    repeat split; try assumption; now apply Hres.
Qed.

Lemma context_reaches_plan_and_synthesis_witness :
  exists plan planReply middle final finalReply,
    since World0
      (snd (generateResearchResponse Examples.researching Examples.question []
              "User: before" World0))
    = EvChat Prompt.planningSystem plan planReply
      :: middle ++ [EvChat Prompt.finalSystem final finalReply]
    /\ Js.includes plan "User: before" = true
    /\ Js.includes final "User: before" = true.
Proof.
  match eval vm_compute in
        (generateResearchResponse Examples.researching Examples.question []
           "User: before" World0)
  with
  | (Ok ?response, ?w') =>
      assert (Hrun : generateResearchResponse Examples.researching Examples.question []
                       "User: before" World0 = (Ok response, w'))
        by (vm_compute; reflexivity);
      destruct (context_reaches_plan_and_synthesis _ _ _ _ _ _ _ Hrun)
        as (plan & planReply & middle & final & finalReply & Hs & _ & Hc & _ & _ & Hfc);
      exists plan, planReply, middle, final, finalReply;
      rewrite Hrun; cbn [snd]; split; [exact Hs | split; [exact Hc | exact Hfc]]
  end.
Defined.

Lemma generateResearchResponse_cost (env : Env) (query : string)
      (initialSearchResults : list SearchResult) (previousContext : string)
      (w : World) :
  let run := generateResearchResponse env query initialSearchResults previousContext w in
  chatCalls (snd run) <= 6 + chatCalls w /\ fetchCalls (snd run) <= 6 + fetchCalls w.
Proof.
  intros run. subst run.
  destruct (generateResearchResponse env query initialSearchResults previousContext w)
    as [r w'] eqn:E.
  apply generateResearchResponse_run in E. cbn [snd].
  split; [|now destruct (Invocation_calls _ _ _ _ _ _ _ E) as (evs & _ & _ & _ & H)].
  destruct E as [Hno | key r w' _ HP]; [lia|].
  destruct HP as [e prompt reply ER | content rr w2 r w' prompt reply ER Hloop HS];
    [cbn [chatCalls]; lia|].
  apply RoundsRun_chatCalls in Hloop. cbn [chatCalls] in Hloop.
  destruct HS as [e w2 | e w2 EP | p w2 reply' EP]; cbn [chatCalls]; lia.
Qed.

(** X25. Processing one query costs at most 6 calls of the model and 9
    requests to the search provider: 3 for the initial search and 3 for
    each of the two rounds. *)
Theorem processQuery_cost (env : Env) (sys : ChatStore.Sys) (query chatId : string)
        (sv : Ask.Server) :
  let run := Ask.processQuery env sys query chatId sv in
  chatCalls (Ask.world (snd run)) <= 6 + chatCalls (Ask.world sv)
  /\ fetchCalls (Ask.world (snd run)) <= 9 + fetchCalls (Ask.world sv).
Proof.
  intros run. subst run. unfold Ask.processQuery.
  destruct (performSearch_frame env query (Ask.world sv))
    as (results & n & evs & Hrun & Hn & _).
  rewrite Hrun.
  destruct (Ask.conversationContext chatId (Ask.store sv)) as [context|e];
    [|cbn; lia].
  pose proof (generateResearchResponse_cost env query results context
                (fetched (Ask.world sv) n evs)) as Hcost.
  cbv zeta in Hcost.
  destruct (generateResearchResponse env query results context _)
    as [[agentResponse|e] w2]; cbn [snd] in Hcost; cbn [fetched chatCalls fetchCalls] in Hcost.
  - destruct (ChatStore.addAgentResponseToChat sys chatId agentResponse (Ask.store sv))
      as [[[]|e] st']; cbn [snd Ask.world]; lia.
  - cbn [snd Ask.world]. lia.
Qed.

(** ** What the provider is asked *)




(** * The steps that the synthesis reads *)





